(** * AstroCat: catalog matching and plate-solve orchestration

    A shallow embedding of the catalog matcher
    ([backend/app/services/matching.py]) and of the plate-solve submission
    and reaper tasks ([backend/app/tasks/astrometry.py],
    [backend/app/services/astrometry_service.py]), together with the
    properties the specification states about them.

    Python floats are IEEE binary64 values and are modelled by Rocq's
    primitive floats; Python dicts and sets by stdpp's [gmap] and [gset].
    A database table is the list of its rows in the order a scan returns
    them, and that order stays the same while the table is unchanged.  The
    storage failure that is modelled is the refusal of an INSERT by the
    unique key of [image_catalog_matches]; connection losses and column
    widths are not. *)

From Stdlib Require Import ZArith Uint63 Floats.PrimFloat Strings.String Strings.Ascii Lia.
From stdpp Require Import gmap strings list.
From stdpp Require Import pretty.

Local Open Scope Z_scope.
Local Open Scope string_scope.
Local Open Scope list_scope.

(** ** Python values *)

(** Exceptions the modelled code can meet. *)
Inductive exn :=
  | IntegrityError        (* a unique constraint refused an INSERT *)
  | MultipleResultsFound  (* [scalar_one_or_none] saw more than one row *)
  | ConnectionError       (* Redis is unreachable *)
  | FileNotFoundError     (* the image file is gone *)
  | ValueError            (* a response or a file could not be used *)
  | HTTPError.            (* the solver answered with an error status *)

Inductive result (A : Type) :=
  | Ok (a : A)
  | Raised (e : exn).
Arguments Ok {A} a.
Arguments Raised {A} e.

(** A decoded JSON value, as stored in [raw_header] and sent in
    [request-json].  Arrays and objects are not inspected by the modelled
    code. *)
Inductive json :=
  | JNull
  | JBool (b : bool)
  | JNumber (x : float)
  | JString (s : string)
  | JCompound.

(** [int] to [float] conversion for the 32-bit integers the columns hold
    (exact below 2^53 in magnitude). *)
Definition float_of_Z (z : Z) : float :=
  match z with
  | Z0 => 0%float
  | Zpos _ => PrimFloat.of_uint63 (Uint63.of_Z z)
  | Zneg p => (- PrimFloat.of_uint63 (Uint63.of_Z (Zpos p)))%float
  end.

(** Truthiness of an [Optional[float]]: [None], [0.0] and [-0.0] are falsy.
    [nonzero x] is [x] when [x] is truthy. *)
Definition nonzero (x : option float) : option float :=
  match x with
  | Some v => if (v =? 0)%float then None else Some v
  | None => None
  end.

(** [x or d] on an [Optional[float]]. *)
Definition or_default (x : option float) (d : float) : float :=
  default d (nonzero x).

(** [s.replace(' ', '')], also PostgreSQL's [replace(s, ' ', '')]. *)
Fixpoint remove_spaces (s : string) : string :=
  match s with
  | EmptyString => EmptyString
  | String c s' =>
      if Ascii.eqb c " "%char then remove_spaces s'
      else String c (remove_spaces s')
  end.

(** [str.upper] on ASCII letters. *)
Definition upper_ascii (c : ascii) : ascii :=
  let n := nat_of_ascii c in
  if ((97 <=? n) && (n <=? 122))%nat then ascii_of_nat (n - 32) else c.

Fixpoint upper (s : string) : string :=
  match s with
  | EmptyString => EmptyString
  | String c s' => String (upper_ascii c) (upper s')
  end.

(** [needle in hay] on strings. *)
Fixpoint contains (needle hay : string) : bool :=
  String.prefix needle hay ||
  match hay with
  | EmptyString => false
  | String _ hay' => contains needle hay'
  end.

(** ** Data model *)

(** [models/matches.py]: [CatalogType]. *)
Inductive CatalogType := MESSIER | NGC | IC | NAMED_STAR.

#[global] Instance CatalogType_eq_dec : EqDecision CatalogType.
Proof. solve_decision. Defined.

#[global] Instance CatalogType_countable : Countable CatalogType.
Proof.
  refine (inj_countable'
    (λ c, match c with MESSIER => 0%nat | NGC => 1%nat | IC => 2%nat | NAMED_STAR => 3%nat end)
    (λ n, match n with 0%nat => MESSIER | 1%nat => NGC | 2%nat => IC | _ => NAMED_STAR end) _).
  by intros [].
Defined.

(** [models/matches.py]: a row of [image_catalog_matches].  The surrogate
    key [id] and [matched_at] are generated on insertion and read by none
    of the modelled code; they are left out. *)
Record ImageCatalogMatch := {
  image_id : Z;
  catalog_type : CatalogType;
  catalog_designation : string;
  angular_separation_degrees : option float;
  is_in_field : option bool;
  match_source : option string;
  confidence_score : option float;
}.

(** The columns of [uq_image_catalog_match]. *)
Definition match_key (m : ImageCatalogMatch) : Z * CatalogType * string :=
  (image_id m, catalog_type m, catalog_designation m).

(** A PostGIS geography point (longitude, latitude). *)
Definition Geography : Type := float * float.

(** [models/catalog.py]: the columns of [MessierCatalog], [NGCCatalog] and
    [NamedStarCatalog] that the matcher reads. *)
Record CatalogObject := {
  designation : string;
  ra_degrees : float;
  dec_degrees : float;
  location : option Geography;
}.

(** [models/image.py]: the columns of [Image] used by the matcher and by
    the plate-solve tasks.  Timestamps are microseconds since the epoch. *)
Module Image.
Record t := {
  id : Z;
  file_path : string;
  width_pixels : option Z;
  height_pixels : option Z;
  is_plate_solved : bool;
  plate_solve_provider : option string;
  ra_center_degrees : option float;
  dec_center_degrees : option float;
  field_radius_degrees : option float;
  pixel_scale_arcsec : option float;
  rotation_degrees : option float;
  raw_header : option (gmap string json);
  astrometry_submission_id : option string;
  astrometry_status : string;
  updated_at : option Z;
}.
End Image.

(** The persisted state. *)
Record Database := {
  images : list Image.t;
  messier_catalog : list CatalogObject;
  ngc_catalog : list CatalogObject;
  named_star_catalog : list CatalogObject;
  image_catalog_matches : list ImageCatalogMatch;
}.

(** [session.get(Image, image_id)] and
    [select(Image).where(Image.id == image_id)]: lookup by primary key. *)
Fixpoint session_get (imgs : list Image.t) (image_id : Z) : option Image.t :=
  match imgs with
  | [] => None
  | img :: rest =>
      if bool_decide (Image.id img = image_id) then Some img
      else session_get rest image_id
  end.

(** [Result.scalar_one_or_none()]. *)
Definition scalar_one_or_none {A} (rows : list A) : result (option A) :=
  match rows with
  | [] => Ok None
  | [x] => Ok (Some x)
  | _ => Raised MultipleResultsFound
  end.

(** ** External collaborators *)

(** The C math library behind [math.cos] and [math.sin]. *)
Class Libm := {
  cos : float → float;
  sin : float → float;
}.

(** [math.radians]: multiplication by the double nearest to pi/180. *)
Definition radians (x : float) : float := (x * 0x1.1df46a2529d39p-6)%float.

(** The value the matcher builds with [astropy.wcs.WCS(naxis=2)]; [ctype]
    is always [RA---TAN], [DEC--TAN]. *)
Record WCS := {
  crpix : float * float;
  crval : float * float;
  cd : (float * float) * (float * float);
}.

(** astropy's side of the WCS: [is_celestial w] is the outcome of filling
    in the WCS and reading [wcs.is_celestial], [world_to_pixel_values] the
    projection of a sky position to pixel coordinates; each may raise. *)
Class Astropy := {
  is_celestial : WCS → result bool;
  world_to_pixel_values : WCS → float → float → result (float * float);
}.

(** PostGIS' geodesic functions on geography points: distance in metres and
    the within-distance test. *)
Class PostGIS := {
  ST_Distance : Geography → Geography → float;
  ST_DWithin : Geography → Geography → float → bool;
}.

(** ** Catalog matcher ([services/matching.py]) *)

(** A row returned by the field queries: [designation] and [dist]. *)
Record FieldRow := {
  row_designation : string;
  dist : float;
}.

(** One entry of the loop's state: [seen_keys], the rows handed to
    [session.add], [count]. *)
Record LoopState := {
  seen_keys : gset (CatalogType * string);
  added : list ImageCatalogMatch;
  count : Z;
}.

Definition coords (o : CatalogObject) : float * float :=
  (ra_degrees o, dec_degrees o).

(** [select(T).where(T.designation == designation)] followed by
    [scalar_one_or_none]. *)
Definition select_exact (tbl : list CatalogObject) (d : string)
  : result (option CatalogObject) :=
  scalar_one_or_none (filter (λ o, designation o = d) tbl).

(** [select(T).where(func.replace(T.designation, ' ', '') ==
    designation.replace(' ', ''))] followed by [scalar_one_or_none]. *)
Definition select_normalized (tbl : list CatalogObject) (d : string)
  : result (option CatalogObject) :=
  scalar_one_or_none
    (filter (λ o, remove_spaces (designation o) = remove_spaces d) tbl).

(** [_get_catalog_coords]: any exception is caught and gives [None]. *)
Definition _get_catalog_coords (db : Database) (cat_type : CatalogType)
    (desig : string) : option (float * float) :=
  match cat_type with
  | MESSIER =>
      match select_exact (messier_catalog db) desig with
      | Ok (Some obj) => Some (coords obj)
      | _ => None
      end
  | NGC | IC =>
      match select_exact (ngc_catalog db) desig with
      | Ok (Some obj) => Some (coords obj)
      | _ => None
      end
  | NAMED_STAR =>
      match select_exact (named_star_catalog db) desig with
      | Raised _ => None
      | Ok (Some obj) => Some (coords obj)
      | Ok None =>
          match select_normalized (named_star_catalog db) desig with
          | Ok (Some obj) => Some (coords obj)
          | _ => None
          end
      end
  end.

(** The number [-scale * parity] multiplies by; [None] when the
    multiplication raises [TypeError]. *)
Definition parity_factor (v : json) : option float :=
  match v with
  | JNumber x => Some x
  | JBool b => Some (if b then 1%float else 0%float)
  | JNull | JString _ | JCompound => None
  end.

(** [parity = 1], overridden by [raw_header.get('astrometry_parity', 1)]
    (an empty header has no such key). *)
Definition header_parity (h : option (gmap string json)) : option float :=
  match h with
  | Some hdr =>
      match hdr !! "astrometry_parity" with
      | Some v => parity_factor v
      | None => Some 1%float
      end
  | None => Some 1%float
  end.

Section Matcher.
Context `{Libm, Astropy, PostGIS}.

(** The SELECT shared by the three field queries, without its LIMIT. *)
Definition select_in_field (tbl : list CatalogObject)
    (ra dec radius_meters : float) : list FieldRow :=
  omap (λ o,
    match location o with
    | Some loc =>
        if ST_DWithin loc (ra, dec) radius_meters
        then Some {| row_designation := designation o;
                     dist := (ST_Distance loc (ra, dec) / 111320.0)%float |}
        else None
    | None => None
    end) tbl.

Definition _find_messier_in_field (db : Database) (ra dec radius : float)
  : list FieldRow :=
  select_in_field (messier_catalog db) ra dec (radius * float_of_Z 111320)%float.

Definition _find_ngc_in_field (db : Database) (ra dec radius : float)
  : list FieldRow :=
  take 50 (select_in_field (ngc_catalog db) ra dec (radius * float_of_Z 111320)%float).

Definition _find_named_stars_in_field (db : Database) (ra dec radius : float)
  : list FieldRow :=
  take 50 (select_in_field (named_star_catalog db) ra dec (radius * float_of_Z 111320)%float).

(** [_construct_wcs]: [None] when a required field is missing, when
    astropy does not report a celestial WCS, or on any exception. *)
Definition _construct_wcs (image : Image.t) : option WCS :=
  match Image.ra_center_degrees image, Image.dec_center_degrees image,
        Image.pixel_scale_arcsec image,
        Image.width_pixels image, Image.height_pixels image with
  | Some ra, Some dec, Some pixel_scale, Some width, Some height =>
      let scale := (pixel_scale / 3600.0)%float in
      let rot_raw := or_default (Image.rotation_degrees image) 0%float in
      let rad := radians rot_raw in
      let cos_a := cos rad in
      let sin_a := sin rad in
      match header_parity (Image.raw_header image) with
      | None => None
      | Some parity =>
          let s_x := (- scale * parity)%float in
          let s_y := (- scale)%float in
          let wcs :=
            {| crpix := ((float_of_Z width / 2.0)%float,
                         (float_of_Z height / 2.0)%float);
               crval := (ra, dec);
               cd := (((s_x * cos_a)%float, (- s_y * sin_a)%float),
                      ((s_x * sin_a)%float, (s_y * cos_a)%float)) |} in
          match is_celestial wcs with
          | Ok true => Some wcs
          | _ => None
          end
      end
  | _, _, _, _, _ => None
  end.

Definition margin : Z := 100.

(** The chained comparison [-margin <= x <= width + margin]. *)
Definition within (x : float) (extent : Z) : bool :=
  ((float_of_Z (- margin) <=? x) && (x <=? float_of_Z (extent + margin)))%float.

(** [_is_in_image_bounds]: a failing projection, or a missing width or
    height, is caught and gives [False]. *)
Definition _is_in_image_bounds (wcs : WCS) (ra dec : float)
    (width height : option Z) : bool :=
  match world_to_pixel_values wcs ra dec with
  | Ok (x, y) =>
      match width, height with
      | Some w, Some h => within x w && within y h
      | _, _ => false
      end
  | Raised _ => false
  end.

(** The row built for a surviving candidate. *)
Definition new_match (image_id : Z) (cat_type : CatalogType) (row : FieldRow)
  : ImageCatalogMatch :=
  {| image_id := image_id;
     catalog_type := cat_type;
     catalog_designation := row_designation row;
     angular_separation_degrees := Some (dist row);
     is_in_field := Some true;
     match_source := Some "AUTOMATIC";
     confidence_score := Some (1.0 - dist row / 5.0)%float |}.

(** The pixel validation of one candidate, skipped without a WCS. *)
Definition validated (db : Database) (wcs : option WCS) (image : Image.t)
    (cat_type : CatalogType) (desig : string) : bool :=
  match wcs with
  | Some w =>
      match _get_catalog_coords db cat_type desig with
      | None => false
      | Some (ra, dec) =>
          _is_in_image_bounds w ra dec
            (Image.width_pixels image) (Image.height_pixels image)
      end
  | None => true
  end.

(** The body of the inner [for row in rows] loop. *)
Definition visit (db : Database) (wcs : option WCS) (image : Image.t)
    (image_id : Z) (cat_type : CatalogType) (st : LoopState) (row : FieldRow)
  : LoopState :=
  let desig := row_designation row in
  let key := (cat_type, desig) in
  if decide (key ∈ seen_keys st) then st
  else if validated db wcs image cat_type desig then
    {| seen_keys := {[key]} ∪ seen_keys st;
       added := added st ++ [new_match image_id cat_type row];
       count := count st + 1 |}
  else st.

(** [for cat_type, rows in all_matches: for row in rows: ...]. *)
Definition validate_all (db : Database) (wcs : option WCS) (image : Image.t)
    (image_id : Z) (all_matches : list (CatalogType * list FieldRow))
    (st : LoopState) : LoopState :=
  foldl (λ st '(cat_type, rows),
           foldl (visit db wcs image image_id cat_type) st rows)
        st all_matches.

(** [delete(ImageCatalogMatch).where(image_id == ..., match_source ==
    'AUTOMATIC')]; a NULL [match_source] does not satisfy the filter. *)
Definition is_automatic_of (image_id' : Z) (m : ImageCatalogMatch) : Prop :=
  image_id m = image_id' ∧ match_source m = Some "AUTOMATIC".

#[global] Instance is_automatic_of_dec i m : Decision (is_automatic_of i m).
Proof. unfold is_automatic_of. apply _. Defined.

Definition delete_automatic (image_id' : Z) (tbl : list ImageCatalogMatch)
  : list ImageCatalogMatch :=
  filter (λ m, ¬ is_automatic_of image_id' m) tbl.

(** The INSERTs of the flush, in [session.add] order;
    [uq_image_catalog_match] refuses a row whose key is already stored.
    The width of the columns is not part of the model: the rows are taken
    to fit them, and a statement that concludes that a commit goes through
    assumes it of the designations. *)
Fixpoint insert_all (tbl new : list ImageCatalogMatch)
  : result (list ImageCatalogMatch) :=
  match new with
  | [] => Ok tbl
  | m :: rest =>
      if decide (match_key m ∈ match_key <$> tbl) then Raised IntegrityError
      else insert_all (tbl ++ [m]) rest
  end.

Definition all_matches_of (db : Database) (ra dec radius : float)
  : list (CatalogType * list FieldRow) :=
  [ (MESSIER, _find_messier_in_field db ra dec radius);
    (NGC, _find_ngc_in_field db ra dec radius);
    (NAMED_STAR, _find_named_stars_in_field db ra dec radius) ].

Definition with_matches (db : Database) (tbl : list ImageCatalogMatch)
  : Database :=
  {| images := images db;
     messier_catalog := messier_catalog db;
     ngc_catalog := ngc_catalog db;
     named_star_catalog := named_star_catalog db;
     image_catalog_matches := tbl |}.

(** [CatalogMatcher.match_image] and [SyncCatalogMatcher.match_image] (the
    two bodies are the same statement for statement): the returned count,
    or the exception raised by the commit, and the committed state.  The
    DELETE and the INSERTs share one transaction, so a refused INSERT
    leaves the stored rows as they were. *)
Definition match_image (db : Database) (image_id : Z) : result Z * Database :=
  match session_get (images db) image_id with
  | None => (Ok 0, db)
  | Some image =>
      if negb (Image.is_plate_solved image) then (Ok 0, db)
      else
        match nonzero (Image.ra_center_degrees image),
              nonzero (Image.dec_center_degrees image) with
        | Some ra, Some dec =>
            let radius := or_default (Image.field_radius_degrees image) 1.0%float in
            let remaining := delete_automatic image_id (image_catalog_matches db) in
            let all_matches := all_matches_of db ra dec radius in
            let wcs := _construct_wcs image in
            let st := validate_all db wcs image image_id all_matches
                        {| seen_keys := ∅; added := []; count := 0 |} in
            match insert_all remaining (added st) with
            | Ok tbl => (Ok (count st), with_matches db tbl)
            | Raised e => (Raised e, db)
            end
        | _, _ => (Ok 0, db)
        end
  end.

End Matcher.


(** ** Plate-solve tasks ([tasks/astrometry.py]) *)

(** [config.py]: the three settings the submission reads. *)
Record Settings := {
  astrometry_api_key : string;
  local_astrometry_url : string;
  local_astrometry_api_key : string;
}.

(** The [system_settings] document kept in Redis ([api/settings.py]); each
    key is read with [.get(key, default)]. *)
Record SystemSettings := {
  astrometry_provider : option string;
  astrometry_max_submissions : option Z;
}.

(** What the task observes of Redis: whether commands succeed, the stored
    settings document, and whether [lock.acquire(blocking=True,
    blocking_timeout=10)] obtains [astrometry:submission_lock]. *)
Record Redis := {
  reachable : bool;
  system_settings : option SystemSettings;
  lock_acquired : bool;
}.

(** How a task invocation ends. *)
Inductive TaskOutcome :=
  | Returned (status : string) (message : option string)
  | Retry (countdown : Z)             (* [task.retry(countdown=...)] *)
  | Failed (e : exn)                  (* the exception propagates *)
  | Monitoring (submission_id : string). (* continues as [_monitor_logic] *)

(** The arguments of [AstrometryService.upload_file]. *)
Record UploadCall := {
  call_file_path : string;
  call_api_key : string;
  call_base_url : string;
  call_hints : gmap string json;
}.

(** The solver's HTTP interface and the image conversion, as used by
    [upload_file]: the login, the JPEG conversion of the file, and the POST
    to [{base_url}/upload], which yields [str] of the response's [subid]
    when there is one. *)
Class SolverIO := {
  get_session_key : string → string → result string;
  convert_to_jpeg : string → result unit;
  post_upload : string → gmap string json → result (option string);
}.

Definition NOVA_API_URL : string := "http://nova.astrometry.net/api".

(** The try/except around a Redis read: the default stands when the read
    fails, when there is no document, or when the key is missing. *)
Definition read_setting {A} (redis : Redis) (field : SystemSettings → option A)
    (d : A) : A :=
  if reachable redis then
    match system_settings redis with
    | Some doc => default d (field doc)
    | None => d
    end
  else d.

(** Provider, API key and base URL chosen at the top of [_rescan_logic]. *)
Record Endpoint := {
  provider : string;
  api_key : string;
  base_url : string;
}.

Definition resolve_endpoint (settings : Settings) (redis : Redis) : Endpoint :=
  let provider := read_setting redis astrometry_provider "nova" in
  if bool_decide (provider = "local") then
    let api_key := local_astrometry_api_key settings in
    let base_url := local_astrometry_url settings in
    if bool_decide (api_key = "") || bool_decide (base_url = "") then
      {| provider := "nova";
         api_key := astrometry_api_key settings;
         base_url := base_url |}
    else {| provider := provider; api_key := api_key; base_url := base_url |}
  else
    {| provider := provider;
       api_key := astrometry_api_key settings;
       base_url := NOVA_API_URL |}.

(** The ceiling read before the lock is taken. *)
Definition max_submissions (redis : Redis) : Z :=
  read_setting redis astrometry_max_submissions 8.

(** [Image.astrometry_status.in_(["SUBMITTED", "PROCESSING"])]. *)
Definition in_flight (img : Image.t) : bool :=
  bool_decide (Image.astrometry_status img ∈ ["SUBMITTED"; "PROCESSING"]).

(** [select(func.count(Image.id)).where(...)]. *)
Definition active_count (db : Database) : Z :=
  Z.of_nat (length (filter (λ img, in_flight img = true) (images db))).

(** An image with its astrometry columns rewritten; [updated_at] takes the
    time of the UPDATE ([onupdate=datetime.utcnow]). *)
Definition set_astrometry (img : Image.t) (status : string)
    (solver : option string) (submission : option string) (now : Z) : Image.t :=
  {| Image.id := Image.id img;
     Image.file_path := Image.file_path img;
     Image.width_pixels := Image.width_pixels img;
     Image.height_pixels := Image.height_pixels img;
     Image.is_plate_solved := Image.is_plate_solved img;
     Image.plate_solve_provider := solver;
     Image.ra_center_degrees := Image.ra_center_degrees img;
     Image.dec_center_degrees := Image.dec_center_degrees img;
     Image.field_radius_degrees := Image.field_radius_degrees img;
     Image.pixel_scale_arcsec := Image.pixel_scale_arcsec img;
     Image.rotation_degrees := Image.rotation_degrees img;
     Image.raw_header := Image.raw_header img;
     Image.astrometry_submission_id := submission;
     Image.astrometry_status := status;
     Image.updated_at := Some now |}.

Definition set_status (status : string) (now : Z) (img : Image.t) : Image.t :=
  set_astrometry img status (Image.plate_solve_provider img)
    (Image.astrometry_submission_id img) now.

(** [UPDATE images SET ... WHERE id = image_id]. *)
Definition update_image (imgs : list Image.t) (image_id : Z)
    (f : Image.t → Image.t) : list Image.t :=
  (λ img, if bool_decide (Image.id img = image_id) then f img else img) <$> imgs.

Definition with_images (db : Database) (imgs : list Image.t) : Database :=
  {| images := imgs;
     messier_catalog := messier_catalog db;
     ngc_catalog := ngc_catalog db;
     named_star_catalog := named_star_catalog db;
     image_catalog_matches := image_catalog_matches db |}.

(** The hints prepared for the upload ([hints = {}] onwards). *)
Definition _rescan_hints (previous_status : string) (image : Image.t)
  : gmap string json :=
  if bool_decide (previous_status = "FAILED") then ∅
  else
    let hints : gmap string json := ∅ in
    let hints :=
      match Image.ra_center_degrees image, Image.dec_center_degrees image with
      | Some ra, Some dec =>
          <["radius" := JNumber (or_default (Image.field_radius_degrees image) 5.0%float)]>
            (<["center_dec" := JNumber dec]> (<["center_ra" := JNumber ra]> hints))
      | _, _ => hints
      end in
    match Image.pixel_scale_arcsec image with
    | Some scale =>
        (* 0.9 and 1.1 as the doubles Python reads them *)
        <["scale_upper" := JNumber (scale * 0x1.199999999999ap+0)%float]>
          (<["scale_lower" := JNumber (scale * 0x1.ccccccccccccdp-1)%float]>
             (<["scale_units" := JString "arcsecperpix"]> hints))
    | None => hints
    end.

(** [_rescan_logic] up to the call of [upload_file]: either the task ends
    here, or the upload is called with the given arguments.  [now] is the
    time of the commit that records SUBMITTED. *)
Definition _rescan_prepare (settings : Settings) (redis : Redis)
    (db : Database) (now : Z) (image_id : Z)
  : (TaskOutcome + UploadCall) * Database :=
  let ep := resolve_endpoint settings redis in
  if bool_decide (api_key ep = "") then
    (inl (Returned "error" (Some "API key missing")), db)
  else
    let max_submissions := max_submissions redis in
    if negb (reachable redis) then (inl (Failed ConnectionError), db)
    else if negb (lock_acquired redis) then (inl (Retry 5), db)
    else if bool_decide (max_submissions ≤ active_count db)%Z then
      (inl (Retry 20), db)
    else
      match session_get (images db) image_id with
      | None => (inl (Returned "error" (Some "Image not found")), db)
      | Some image =>
          if bool_decide (Image.astrometry_status image
                            ∈ ["SUBMITTED"; "PROCESSING"; "SOLVED"]) then
            (inl (Returned "already_started" None), db)
          else
            let file_path := Image.file_path image in
            let previous_status := Image.astrometry_status image in
            let submitted img :=
              set_astrometry img "SUBMITTED" (Some (upper (provider ep)))
                (Image.astrometry_submission_id img) now in
            (inr {| call_file_path := file_path;
                    call_api_key := api_key ep;
                    call_base_url := base_url ep;
                    call_hints := _rescan_hints previous_status (submitted image) |},
             with_images db (update_image (images db) image_id submitted))
      end.

(** [upload_file]: the [request-json] payload. [dict.update] lets the new
    entries win. *)
Definition request_json (session_key base_url : string)
    (hints : gmap string json) : gmap string json :=
  let req_data : gmap string json :=
    <["session" := JString session_key]>
      (<["allow_modifications" := JString "d"]>
         (<["allow_commercial_use" := JString "d"]>
            {["publicly_visible" := JString "n"]})) in
  if negb (contains "nova.astrometry.net" base_url) then
    let req_data :=
      (* 0.1 as the double Python reads it *)
      <["scale_upper" := JNumber 180.0%float]>
        (<["scale_lower" := JNumber 0x1.999999999999ap-4%float]>
           (<["scale_units" := JString "degwidth"]> req_data)) in
    if bool_decide (hints = ∅) then req_data else hints ∪ req_data
  else req_data.

Section Submission.
Context `{SolverIO}.

(** [AstrometryService.upload_file]. *)
Definition upload_file (call : UploadCall) : result (option string) :=
  match get_session_key (call_api_key call) (call_base_url call) with
  | Raised e => Raised e
  | Ok session_key =>
      match convert_to_jpeg (call_file_path call) with
      | Raised e => Raised e
      | Ok _ =>
          post_upload (call_base_url call)
            (request_json session_key (call_base_url call) (call_hints call))
      end
  end.

(** [_rescan_logic], to the point where it hands over to [_monitor_logic].
    [now'] is the time of the commit that follows the upload. *)
Definition _rescan_logic (settings : Settings) (redis : Redis)
    (db : Database) (now now' : Z) (image_id : Z) : TaskOutcome * Database :=
  match _rescan_prepare settings redis db now image_id with
  | (inl outcome, db') => (outcome, db')
  | (inr call, db') =>
      let failed e :=
        (Failed e,
         with_images db' (update_image (images db') image_id (set_status "FAILED" now'))) in
      match upload_file call with
      | Ok (Some submission_id) =>
          (Monitoring submission_id,
           with_images db'
             (update_image (images db') image_id
                (λ img, set_astrometry img "PROCESSING"
                          (Image.plate_solve_provider img) (Some submission_id) now')))
      | Ok None => failed ValueError
      | Raised e => failed e
      end
  end.

End Submission.

(** [timedelta(minutes=5)] in microseconds. *)
Definition five_minutes : Z := 5 * 60 * 1000000.

(** The WHERE clause of the reaper's SELECT; a NULL [updated_at] does not
    satisfy the comparison. *)
Definition is_stuck (five_mins_ago : Z) (img : Image.t) : bool :=
  in_flight img &&
  match Image.updated_at img with
  | Some t => bool_decide (t < five_mins_ago)
  | None => false
  end.

(** [cleanup_stuck_astrometry]: [now] is [datetime.utcnow()] at the start of
    the sweep, [commit_time] the time of its commit. *)
Definition cleanup_stuck_astrometry (db : Database) (now commit_time : Z)
  : Z * Database :=
  let five_mins_ago := now - five_minutes in
  let stuck_images := filter (λ img, is_stuck five_mins_ago img = true) (images db) in
  match stuck_images with
  | [] => (0, db)
  | _ =>
      (Z.of_nat (length stuck_images),
       with_images db
         (foldl (λ imgs img, update_image imgs (Image.id img) (set_status "FAILED" commit_time))
                (images db) stuck_images))
  end.

(** ** Bulk submission ([tasks/bulk.py]) *)

(** [models/image.py]: [ImageSubtype]. *)
Inductive ImageSubtype :=
  | SUB_FRAME | INTEGRATION_MASTER | INTEGRATION_DEPRECATED | PLANETARY.

#[global] Instance ImageSubtype_eq_dec : EqDecision ImageSubtype.
Proof. solve_decision. Defined.

(** An [Image] row as [bulk_astrometry_task] reads it: the columns above
    together with [subtype]. *)
Record BulkImage := {
  bulk_row : Image.t;
  subtype : ImageSubtype;
}.

(** The three accumulators of the classification loop. *)
Record BulkQueues := {
  priority_queue : list BulkImage;
  standard_queue : list BulkImage;
  skipped_count : Z;
}.

Definition skip_one (q : BulkQueues) : BulkQueues :=
  {| priority_queue := priority_queue q;
     standard_queue := standard_queue q;
     skipped_count := skipped_count q + 1 |}.

(** The body of [for img in images] in [bulk_astrometry_task]. *)
Definition classify (force : bool) (q : BulkQueues) (img : BulkImage) : BulkQueues :=
  let status := Image.astrometry_status (bulk_row img) in
  let solved := Image.is_plate_solved (bulk_row img) in
  if bool_decide (subtype img = PLANETARY) then skip_one q
  else if solved && negb (bool_decide (status = "SOLVED")) then
    if bool_decide (status ∈ ["SUBMITTED"; "PROCESSING"]) && negb force
    then skip_one q
    else {| priority_queue := priority_queue q ++ [img];
            standard_queue := standard_queue q;
            skipped_count := skipped_count q |}
  else
    let should_rescan :=
      if force then true
      else if negb solved
              && negb (bool_decide (status ∈ ["SUBMITTED"; "PROCESSING"; "SOLVED"]))
      then true
      else if bool_decide (status = "FAILED") then true
      else false in
    if should_rescan then
      {| priority_queue := priority_queue q;
         standard_queue := standard_queue q ++ [img];
         skipped_count := skipped_count q |}
    else skip_one q.

(** What [bulk_astrometry_task] has done when it reports "completed": the
    arguments of the [astrometry_task.delay] calls, in order, and the final
    counters written to the progress hash. *)
Record BulkReport := {
  delayed : list Z;
  processed : Z;
  queued : Z;
  skipped : Z;
}.

(** [bulk_astrometry_task], from the list of images its query selected. *)
Definition bulk_astrometry_queue (force : bool) (selected : list BulkImage)
  : BulkReport :=
  let q := foldl (classify force)
             {| priority_queue := []; standard_queue := []; skipped_count := 0 |}
             selected in
  let final_queue := priority_queue q ++ standard_queue q in
  foldl (λ r img,
           {| delayed := delayed r ++ [Image.id (bulk_row img)];
              processed := processed r + 1;
              queued := queued r + 1;
              skipped := skipped r |})
        {| delayed := []; processed := skipped_count q; queued := 0;
           skipped := skipped_count q |}
        final_queue.

(** ** System settings ([api/settings.py]) *)

(** The outcome of an HTTP handler: the response body or the status of the
    error response. *)
Inductive http_result (A : Type) :=
  | HttpOk (a : A)
  | HttpError (code : Z).
Arguments HttpOk {A} a.
Arguments HttpError {A} code.

(** The fields of the [SystemSettings] body that the tasks read. *)
Record SettingsBody := {
  body_provider : string;
  body_max_submissions : Z;
}.

(** [get_settings]: the stored document, or the default when there is
    none.  A stored document without a provider does not validate. *)
Definition get_settings (redis : Redis) : http_result SettingsBody :=
  if negb (reachable redis) then HttpError 500
  else
    match system_settings redis with
    | None => HttpOk {| body_provider := "nova"; body_max_submissions := 8 |}
    | Some doc =>
        match astrometry_provider doc with
        | None => HttpError 500
        | Some p =>
            HttpOk {| body_provider := p;
                      body_max_submissions :=
                        default 8 (astrometry_max_submissions doc) |}
        end
    end.

(** [update_settings]: the response and the state of Redis afterwards. *)
Definition update_settings (settings : Settings) (redis : Redis)
    (new_settings : SettingsBody) : http_result SettingsBody * Redis :=
  if bool_decide (body_provider new_settings = "local")
     && (bool_decide (local_astrometry_url settings = "")
         || bool_decide (local_astrometry_api_key settings = ""))
  then (HttpError 400, redis)
  else if negb (reachable redis) then (HttpError 500, redis)
  else
    (HttpOk new_settings,
     {| reachable := reachable redis;
        system_settings :=
          Some {| astrometry_provider := Some (body_provider new_settings);
                  astrometry_max_submissions :=
                    Some (body_max_submissions new_settings) |};
        lock_acquired := lock_acquired redis |}).

(** ** Solve request ([api/images.py], [rescan_image]) *)

(** Assignment of the three astrometry columns followed by a commit: the
    UPDATE, and with it the new [updated_at], is issued only when a column
    changes. *)
Definition assign_astrometry (status : string) (solver submission : option string)
    (now : Z) (img : Image.t) : Image.t :=
  if bool_decide (Image.astrometry_status img = status
                  ∧ Image.plate_solve_provider img = solver
                  ∧ Image.astrometry_submission_id img = submission)
  then img
  else set_astrometry img status solver submission now.

Definition assign_status (status : string) (now : Z) (img : Image.t) : Image.t :=
  assign_astrometry status (Image.plate_solve_provider img)
    (Image.astrometry_submission_id img) now img.

(** What the handler leaves behind: the upload it made, if any, and the
    arguments of [monitor_astrometry_task.delay], if it was called. *)
Record RescanEffects := {
  uploaded : option UploadCall;
  monitor_delayed : option (string * Z);
}.

Section SolveRequest.
Context `{SolverIO}.

(** [rescan_image]: the response (the submission id on success), the
    committed state and the effects.  [now] and [now'] are the times of the
    commits before and after the upload. *)
Definition rescan_image (settings : Settings) (redis : Redis) (db : Database)
    (now now' : Z) (image_id : Z)
  : http_result string * Database * RescanEffects :=
  let nothing := {| uploaded := None; monitor_delayed := None |} in
  match session_get (images db) image_id with
  | None => (HttpError 404, db, nothing)
  | Some image =>
      let ep := resolve_endpoint settings redis in
      if bool_decide (api_key ep = "") then (HttpError 500, db, nothing)
      else
        let previous_status := Image.astrometry_status image in
        let submitted img :=
          assign_astrometry "SUBMITTED" (Some (upper (provider ep)))
            (Image.astrometry_submission_id img) now img in
        let db1 := with_images db (update_image (images db) image_id submitted) in
        let call :=
          {| call_file_path := Image.file_path image;
             call_api_key := api_key ep;
             call_base_url := base_url ep;
             call_hints := _rescan_hints previous_status (submitted image) |} in
        let failed :=
          (HttpError 500,
           with_images db1
             (update_image (images db1) image_id (assign_status "FAILED" now')),
           {| uploaded := Some call; monitor_delayed := None |}) in
        match upload_file call with
        | Ok (Some submission_id) =>
            (HttpOk submission_id,
             with_images db1
               (update_image (images db1) image_id
                  (λ img, assign_astrometry (Image.astrometry_status img)
                            (Image.plate_solve_provider img)
                            (Some submission_id) now' img)),
             {| uploaded := Some call;
                monitor_delayed := Some (submission_id, image_id) |})
        | Ok None => failed
        | Raised _ => failed
        end
  end.

End SolveRequest.

(** ** The monitor ([tasks/astrometry.py], [_monitor_logic]) *)

(** The columns of [Image] that only the monitor writes, kept beside the
    image row and keyed by its id; an image without an entry has them all
    NULL. *)
Record SolveColumns := {
  astrometry_job_id : option string;
  astrometry_url : option string;
  plate_solve_source : option string;
}.

Definition no_solve_columns : SolveColumns :=
  {| astrometry_job_id := None; astrometry_url := None;
     plate_solve_source := None |}.

Record Store := {
  store_db : Database;
  solve_columns : gmap Z SolveColumns;
}.

Definition columns_of (st : Store) (image_id : Z) : SolveColumns :=
  default no_solve_columns (solve_columns st !! image_id).

Definition store_images (st : Store) (imgs : list Image.t) : Store :=
  {| store_db := with_images (store_db st) imgs;
     solve_columns := solve_columns st |}.

(** The calibration of a job, each field read with [cal.get]. *)
Record Calibration := {
  cal_ra : option float;
  cal_dec : option float;
  cal_radius : option float;
  cal_pixscale : option float;
  cal_orientation : option float;
  cal_parity : option float;
}.

(** The solver as the monitor polls it.  The two status calls are asked
    once per attempt and answer by attempt number; a job id is an
    integer. *)
Class SolverPolls := {
  get_submission_status : nat → string → string → result (list (option Z));
  get_job_status : nat → Z → string → result string;
  get_calibration : Z → string → result Calibration;
}.

Inductive monitor_exn :=
  | NoResultFound          (* [scalar_one] found no image *)
  | Propagated (e : exn).

Inductive MonitorOutcome :=
  | MonitorReturned (status : string) (job_id : option Z)
  | MonitorRaised (e : monitor_exn).

(** How the polling loop ends: it ran out or broke off with [job_id] as it
    then stands, the job reported failure, or an exception left it. *)
Inductive PollEnd :=
  | PollDone (job_id : option Z)
  | PollJobFailed (job_id : Z)
  | PollRaised (e : monitor_exn).

(** [image.astrometry_status = "FAILED"] on a freshly loaded image;
    [None] when [scalar_one] raises. *)
Definition mark_failed (st : Store) (image_id : Z) (now : Z) : option Store :=
  match session_get (images (store_db st)) image_id with
  | None => None
  | Some _ =>
      Some (store_images st
              (update_image (images (store_db st)) image_id
                 (assign_status "FAILED" now)))
  end.

(** The session opened when a job id shows up: the id is stored when it
    differs from the stored one, and SUBMITTED then becomes PROCESSING. *)
Definition record_job (st : Store) (image_id : Z) (job : Z) (now : Z)
  : option Store :=
  match session_get (images (store_db st)) image_id with
  | None => None
  | Some _ =>
      let cols := columns_of st image_id in
      if bool_decide (astrometry_job_id cols = Some (pretty job)) then Some st
      else
        Some {| store_db :=
                  with_images (store_db st)
                    (update_image (images (store_db st)) image_id
                       (λ img,
                          set_status
                            (if bool_decide (Image.astrometry_status img = "SUBMITTED")
                             then "PROCESSING" else Image.astrometry_status img)
                            now img));
                solve_columns :=
                  <[image_id := {| astrometry_job_id := Some (pretty job);
                                   astrometry_url := astrometry_url cols;
                                   plate_solve_source := plate_solve_source cols |}]>
                    (solve_columns st) |}
  end.

(** The URL polled: the local one when the image was submitted to the
    local provider and a local URL is configured. *)
Definition monitor_base_url (settings : Settings) (st : Store) (image_id : Z)
  : string :=
  match session_get (images (store_db st)) image_id with
  | Some img =>
      if bool_decide (Image.plate_solve_provider img = Some "LOCAL")
         && negb (bool_decide (local_astrometry_url settings = ""))
      then local_astrometry_url settings
      else NOVA_API_URL
  | None => NOVA_API_URL
  end.

(** [==] between two optional floats, as the ORM compares a column with the
    value assigned to it. *)
Definition same_float (a b : option float) : bool :=
  match a, b with
  | None, None => true
  | Some x, Some y => (x =? y)%float
  | _, _ => false
  end.

(** The header written on success: a copy of the stored one with
    [astrometry_parity] set ([null] when the calibration has none). *)
Definition solved_header (old : option (gmap string json)) (parity : option float)
  : gmap string json :=
  <["astrometry_parity" := from_option JNumber JNull parity]> (default ∅ old).

(** Whether that header equals the stored one. *)
Definition same_header (old : option (gmap string json)) (parity : option float)
  : bool :=
  match old with
  | None => false
  | Some hdr =>
      match hdr !! "astrometry_parity", parity with
      | Some JNull, None => true
      | Some (JNumber y), Some x => (y =? x)%float
      | Some (JBool b), Some x => ((if b then 1 else 0) =? x)%float
      | _, _ => false
      end
  end.

Definition solved_url (base_url submission_id : string) : string :=
  if negb (bool_decide (base_url = "")) && contains "nova" base_url
  then String.append "http://nova.astrometry.net/status/" submission_id
  else String.append base_url (String.append "/status/" submission_id).

(** The image after the assignments of the success branch.  [center_location]
    is assigned, and the row therefore updated, whenever the calibration has
    both coordinates; otherwise the row is updated only when a column
    changes. *)
Definition apply_calibration (img : Image.t) (cols : SolveColumns)
    (cal : Calibration) (url : string) (now : Z) : Image.t :=
  let unchanged :=
    Image.is_plate_solved img
    && same_float (Image.ra_center_degrees img) (cal_ra cal)
    && same_float (Image.dec_center_degrees img) (cal_dec cal)
    && same_float (Image.field_radius_degrees img) (cal_radius cal)
    && same_float (Image.pixel_scale_arcsec img) (cal_pixscale cal)
    && same_float (Image.rotation_degrees img) (cal_orientation cal)
    && same_header (Image.raw_header img) (cal_parity cal)
    && bool_decide (Image.astrometry_status img = "SOLVED")
    && bool_decide (astrometry_url cols = Some url)
    && bool_decide (plate_solve_source cols = Some "SOLVER") in
  let located :=
    match cal_ra cal, cal_dec cal with
    | Some _, Some _ => true
    | _, _ => false
    end in
  {| Image.id := Image.id img;
     Image.file_path := Image.file_path img;
     Image.width_pixels := Image.width_pixels img;
     Image.height_pixels := Image.height_pixels img;
     Image.is_plate_solved := true;
     Image.plate_solve_provider := Image.plate_solve_provider img;
     Image.ra_center_degrees := cal_ra cal;
     Image.dec_center_degrees := cal_dec cal;
     Image.field_radius_degrees := cal_radius cal;
     Image.pixel_scale_arcsec := cal_pixscale cal;
     Image.rotation_degrees := cal_orientation cal;
     Image.raw_header :=
       Some (solved_header (Image.raw_header img) (cal_parity cal));
     Image.astrometry_submission_id := Image.astrometry_submission_id img;
     Image.astrometry_status := "SOLVED";
     Image.updated_at :=
       if located || negb unchanged then Some now else Image.updated_at img |}.

Section Monitor.
Context `{Libm, Astropy, PostGIS, SolverPolls}.
Variables (submission_id : string) (image_id' : Z) (base_url' : string).
Variable clock : nat → Z.

(** [for i in range(max_attempts)], with [remaining] attempts to go, [i]
    the attempt number and [job_id] the variable of that name. *)
Fixpoint poll (remaining : nat) (i : nat) (job_id : option Z) (st : Store)
  : PollEnd * Store :=
  match remaining with
  | O => (PollDone job_id, st)
  | S remaining' =>
      match get_submission_status i submission_id base_url' with
      | Raised _ => poll remaining' (S i) job_id st
      | Ok (Some job :: _) =>
          match record_job st image_id' job (clock i) with
          | None => (PollRaised NoResultFound, st)
          | Some st' =>
              match get_job_status i job base_url' with
              | Raised e => (PollRaised (Propagated e), st')
              | Ok status_str =>
                  if bool_decide (status_str = "success") then
                    (PollDone (Some job), st')
                  else if bool_decide (status_str = "failure") then
                    match mark_failed st' image_id' (clock i) with
                    | None => (PollRaised NoResultFound, st')
                    | Some st'' => (PollJobFailed job, st'')
                    end
                  else poll remaining' (S i) (Some job) st'
              end
          end
      | Ok _ => poll remaining' (S i) job_id st
      end
  end.

Definition max_attempts : nat := 45.

(** The [except] handler of the result phase: FAILED, then re-raise. *)
Definition fail_results (st : Store) (e : monitor_exn) : MonitorOutcome * Store :=
  match mark_failed st image_id' (clock (S max_attempts)) with
  | None => (MonitorRaised NoResultFound, st)
  | Some st' => (MonitorRaised e, st')
  end.

(** The result phase for a job, up to the two best-effort downloads that
    follow a successful match (the annotated JPEG and the [wcs_header]
    column), which no longer change what is returned. *)
Definition fetch_results (job : Z) (st : Store) : MonitorOutcome * Store :=
  match get_calibration job base_url' with
  | Raised e => fail_results st (Propagated e)
  | Ok cal =>
      match session_get (images (store_db st)) image_id' with
      | None => fail_results st NoResultFound
      | Some _ =>
          let cols := columns_of st image_id' in
          let url := solved_url base_url' submission_id in
          let st1 :=
            {| store_db :=
                 with_images (store_db st)
                   (update_image (images (store_db st)) image_id'
                      (λ img, apply_calibration img cols cal url (clock max_attempts)));
               solve_columns :=
                 <[image_id' := {| astrometry_job_id := astrometry_job_id cols;
                                   astrometry_url := Some url;
                                   plate_solve_source := Some "SOLVER" |}]>
                   (solve_columns st) |} in
          match match_image (store_db st1) image_id' with
          | (Raised e, _) => fail_results st1 (Propagated e)
          | (Ok _, db2) =>
              (MonitorReturned "solved" (Some job),
               {| store_db := db2; solve_columns := solve_columns st1 |})
          end
      end
  end.

(** [_monitor_logic], from the loop onwards. *)
Definition monitor_from (st : Store) : MonitorOutcome * Store :=
  match poll max_attempts 0 None st with
  | (PollRaised e, st') => (MonitorRaised e, st')
  | (PollJobFailed job, st') => (MonitorReturned "failed" (Some job), st')
  | (PollDone job_id, st') =>
      match job_id with
      | Some job =>
          if bool_decide (job = 0) then
            match mark_failed st' image_id' (clock max_attempts) with
            | None => (MonitorRaised NoResultFound, st')
            | Some st'' => (MonitorReturned "timeout" None, st'')
            end
          else fetch_results job st'
      | None =>
          match mark_failed st' image_id' (clock max_attempts) with
          | None => (MonitorRaised NoResultFound, st')
          | Some st'' => (MonitorReturned "timeout" None, st'')
          end
      end
  end.

End Monitor.

(** [_monitor_logic]: the URL is chosen from the stored provider, then the
    solver is polled. *)
Definition _monitor_logic `{Libm, Astropy, PostGIS, SolverPolls}
    (settings : Settings) (clock : nat → Z) (submission_id : string)
    (image_id : Z) (st : Store) : MonitorOutcome * Store :=
  monitor_from submission_id image_id
    (monitor_base_url settings st image_id) clock st.

(** [astrometry_task]: [_rescan_logic] through to its end.  The monitor
    runs inside the [try] that guards the upload, so an exception that
    leaves it is met by the same handler: FAILED, then re-raise. *)
Definition astrometry_task `{Libm, Astropy, PostGIS, SolverIO, SolverPolls}
    (settings : Settings) (redis : Redis) (clock : nat → Z) (now now' : Z)
    (image_id : Z) (st : Store) : (TaskOutcome + MonitorOutcome) * Store :=
  match _rescan_logic settings redis (store_db st) now now' image_id with
  | (Monitoring submission_id, db1) =>
      let st1 := {| store_db := db1; solve_columns := solve_columns st |} in
      match _monitor_logic settings clock submission_id image_id st1 with
      | (MonitorRaised e, st2) =>
          match mark_failed st2 image_id (clock (S (S max_attempts))) with
          | None => (inr (MonitorRaised NoResultFound), st2)
          | Some st3 => (inr (MonitorRaised e), st3)
          end
      | (outcome, st2) => (inr outcome, st2)
      end
  | (outcome, db1) =>
      (inl outcome, {| store_db := db1; solve_columns := solve_columns st |})
  end.

(** ** The specification's own wording *)

(** The normalization the specification gives for point-object names:
    uppercase, spaces removed. *)
Definition spec_normalize (s : string) : string := remove_spaces (upper s).

(** The specification's confidence score, [max(0, 1 - separation / 5.0)]. *)
Definition spec_confidence (separation : float) : float :=
  let v := (1.0 - separation / 5.0)%float in
  if (0 <? v)%float then v else 0%float.

(** ** Worked scenarios

    Concrete collaborators and databases on which the model is run.  The
    scenarios keep every object on the image's meridian and every image
    unrotated, where the stand-ins below agree with the real geometry to
    first order. *)

(** PostGIS on one meridian: 111320 m per degree of separation. *)
Definition meridian_postgis : PostGIS :=
  {| ST_Distance := λ a b,
       (111320 * (abs (a.1 - b.1) + abs (a.2 - b.2)))%float;
     ST_DWithin := λ a b r,
       (111320 * (abs (a.1 - b.1) + abs (a.2 - b.2)) <=? r)%float |}.

(** libm at the angle 0, the only rotation the scenarios use. *)
Definition libm_unrotated : Libm :=
  {| cos := λ _, 1%float; sin := λ _, 0%float |}.

(** The tangent-plane projection to first order, for a diagonal CD matrix. *)
Definition linear_astropy : Astropy :=
  {| is_celestial := λ _, Ok true;
     world_to_pixel_values := λ w ra dec,
       Ok ((w.(crpix).1 + (ra - w.(crval).1) / w.(cd).1.1)%float,
           (w.(crpix).2 + (dec - w.(crval).2) / w.(cd).2.2)%float) |}.

Definition catalog_object (d : string) (ra dec : float) : CatalogObject :=
  {| designation := d; ra_degrees := ra; dec_degrees := dec;
     location := Some (ra, dec) |}.

Definition scenario_image (image_id : Z) (solved : bool) (status : string)
    (ra dec radius scale : option float) (updated : option Z) : Image.t :=
  {| Image.id := image_id;
     Image.file_path := "/data/images/m31.fits";
     Image.width_pixels := Some 1000;
     Image.height_pixels := Some 1000;
     Image.is_plate_solved := solved;
     Image.plate_solve_provider := None;
     Image.ra_center_degrees := ra;
     Image.dec_center_degrees := dec;
     Image.field_radius_degrees := radius;
     Image.pixel_scale_arcsec := scale;
     Image.rotation_degrees := Some 0%float;
     Image.raw_header := None;
     Image.astrometry_submission_id := None;
     Image.astrometry_status := status;
     Image.updated_at := updated |}.

Definition manual_match (image_id : Z) (d : string) : ImageCatalogMatch :=
  {| image_id := image_id; catalog_type := MESSIER; catalog_designation := d;
     angular_separation_degrees := None; is_in_field := Some true;
     match_source := Some "MANUAL"; confidence_score := None |}.

(** The catalogs of the scenarios.  The designations are only labels: the
    positions are those the scenarios need, at 0, 0.5, 2.5 and 7.5 degrees
    north of (10, 41) and a fraction of a degree around it. *)
Definition scenario_db (imgs : list Image.t) (matches : list ImageCatalogMatch)
  : Database :=
  {| images := imgs;
     messier_catalog :=
       [ catalog_object "M31" 10 41; catalog_object "M32" 10 41.5;
         catalog_object "M110" 10 43.5; catalog_object "M33" 10 48.5 ];
     ngc_catalog := [ catalog_object "NGC206" 10 40.75 ];
     named_star_catalog := [ catalog_object "nu And" 10 41.0625 ];
     image_catalog_matches := matches |}.

(** The specification's scenario: centre (10, 41), radius 1 degree,
    2 arcsec per pixel, unrotated, 1000 x 1000 pixels. *)
Definition m31_image : Image.t :=
  scenario_image 1 true "SOLVED" (Some 10%float) (Some 41%float)
    (Some 1%float) (Some 2%float) None.

Definition m31_db : Database :=
  scenario_db [m31_image] [manual_match 1 "M110"; manual_match 2 "M31"].

(** A wide field: radius 10 degrees at 60 arcsec per pixel. *)
Definition wide_image : Image.t :=
  scenario_image 1 true "SOLVED" (Some 10%float) (Some 41%float)
    (Some 10%float) (Some 60%float) None.

Definition wide_db : Database := scenario_db [wide_image] [].

(** A solved image whose right ascension is exactly 0.0. *)
Definition zero_ra_image : Image.t :=
  scenario_image 1 true "SOLVED" (Some 0%float) (Some 41%float)
    (Some 1%float) (Some 2%float) None.

Definition zero_ra_db : Database :=
  {| images := [zero_ra_image];
     messier_catalog := [ catalog_object "M31" 0 41 ];
     ngc_catalog := [];
     named_star_catalog := [];
     image_catalog_matches := [] |}.

(** Named stars as older records stored them. *)
Definition star_db (stars : list CatalogObject) : Database :=
  {| images := []; messier_catalog := []; ngc_catalog := [];
     named_star_catalog := stars; image_catalog_matches := [] |}.

(** A solver that accepts every upload. *)
Definition accepting_solver : SolverIO :=
  {| get_session_key := λ _ _, Ok "session";
     convert_to_jpeg := λ _, Ok ();
     post_upload := λ _ _, Ok (Some "4242") |}.

Definition local_settings : Settings :=
  {| astrometry_api_key := "nova-key";
     local_astrometry_url := "http://solver.lan:8080/api";
     local_astrometry_api_key := "local-key" |}.

Definition local_redis (ceiling : option Z) : Redis :=
  {| reachable := true;
     system_settings :=
       Some {| astrometry_provider := Some "local";
               astrometry_max_submissions := ceiling |};
     lock_acquired := true |}.

(** Timestamps of the reaper scenario, in microseconds: the sweep runs at
    one hour; one image was updated ten minutes before, one a minute
    before. *)
Definition sweep_time : Z := 3600 * 1000000.

Definition stale_image : Image.t :=
  scenario_image 1 false "PROCESSING" None None None None
    (Some (sweep_time - 10 * 60 * 1000000)).

Definition recent_image : Image.t :=
  scenario_image 2 false "PROCESSING" None None None None
    (Some (sweep_time - 1 * 60 * 1000000)).

Definition settled_image : Image.t :=
  scenario_image 3 true "SOLVED" (Some 10%float) (Some 41%float) None None
    (Some 0).

Definition reaper_db : Database :=
  scenario_db [stale_image; recent_image; settled_image] [].

(** A FAILED image that still carries the centre and scale of an earlier
    solve. *)
Definition failed_image : Image.t :=
  scenario_image 7 false "FAILED" (Some 10%float) (Some 41%float)
    (Some 1%float) (Some 2%float) (Some 0).

(** Eight images in flight and one waiting. *)
Definition busy_db : Database :=
  scenario_db
    (((λ i, scenario_image i false "SUBMITTED" None None None None (Some 0))
        <$> [1; 2; 3; 4; 5; 6; 7; 8])
     ++ [scenario_image 9 false "NONE" None None None None (Some 0)]) [].

(** The same field when the stored pixel scale is missing, so that no WCS
    can be built. *)
Definition unscaled_image : Image.t :=
  scenario_image 1 true "SOLVED" (Some 10%float) (Some 41%float)
    (Some 1%float) None None.

Definition unscaled_db : Database := scenario_db [unscaled_image] [].

(** An image that was indexed but never solved, with rows from an earlier
    run still stored. *)
Definition unsolved_db : Database :=
  scenario_db
    [scenario_image 1 false "NONE" (Some 10%float) (Some 41%float) None None None]
    [manual_match 1 "M110"].

Definition failed_db : Database := scenario_db [failed_image] [].

(** The same image before any failure: status NONE. *)
Definition fresh_image : Image.t :=
  scenario_image 7 false "NONE" (Some 10%float) (Some 41%float)
    (Some 1%float) (Some 2%float) (Some 0).

Definition fresh_db : Database := scenario_db [fresh_image] [].

(** A named star stored in its spaced, mixed-case form. *)
Definition alpha_cen : CatalogObject :=
  catalog_object "Alpha Cen" 219.875 (-60.75).

(** Two stored designations that differ only in their spaces. *)
Definition hr_spaced : CatalogObject := catalog_object "HR 5459" 219.875 (-60.75).
Definition hr_unspaced : CatalogObject := catalog_object "HR5459" 219.875 (-60.75).

(** The M31 field with a MANUAL row for the object at its centre. *)
Definition pinned_db : Database :=
  scenario_db [m31_image] [manual_match 1 "M31"].

(** A solved image whose header stores a null parity, as the monitor
    writes it when the calibration has none. *)
Definition null_parity_image : Image.t :=
  {| Image.id := 1;
     Image.file_path := "/data/images/m31.fits";
     Image.width_pixels := Some 1000;
     Image.height_pixels := Some 1000;
     Image.is_plate_solved := true;
     Image.plate_solve_provider := None;
     Image.ra_center_degrees := Some 10%float;
     Image.dec_center_degrees := Some 41%float;
     Image.field_radius_degrees := Some 1%float;
     Image.pixel_scale_arcsec := Some 2%float;
     Image.rotation_degrees := Some 0%float;
     Image.raw_header := Some {["astrometry_parity" := JNull]};
     Image.astrometry_submission_id := None;
     Image.astrometry_status := "SOLVED";
     Image.updated_at := None |}.

Definition null_parity_db : Database := scenario_db [null_parity_image] [].

(** Settings with no local solver, and a Redis that holds no settings
    document. *)
Definition remote_settings : Settings :=
  {| astrometry_api_key := "nova-key";
     local_astrometry_url := "";
     local_astrometry_api_key := "" |}.

Definition remote_redis : Redis :=
  {| reachable := true; system_settings := None; lock_acquired := true |}.

(** A solver that refuses every upload. *)
Definition refusing_solver : SolverIO :=
  {| get_session_key := λ _ _, Ok "session";
     convert_to_jpeg := λ _, Ok ();
     post_upload := λ _ _, Raised HTTPError |}.

(** An image that stalled in PROCESSING ten minutes before the sweep and
    still stores the centre and scale of an earlier solve. *)
Definition stalled_image : Image.t :=
  scenario_image 7 false "PROCESSING" (Some 10%float) (Some 41%float)
    (Some 1%float) (Some 2%float) (Some (sweep_time - 10 * 60 * 1000000)).

Definition stalled_db : Database := scenario_db [stalled_image; recent_image] [].

(** A solver that gives the same three answers at every poll. *)
Definition scripted_solver (submission : result (list (option Z)))
    (job : result string) (cal : result Calibration) : SolverPolls :=
  {| get_submission_status := λ _ _ _, submission;
     get_job_status := λ _ _ _, job;
     get_calibration := λ _ _, cal |}.

(** The calibration of the M31 field. *)
Definition m31_calibration : Calibration :=
  {| cal_ra := Some 10%float; cal_dec := Some 41%float;
     cal_radius := Some 1%float; cal_pixscale := Some 2%float;
     cal_orientation := Some 0%float; cal_parity := Some 1%float |}.

(** An image waiting for its solve, with a MANUAL row stored. *)
Definition processing_image : Image.t :=
  scenario_image 1 false "PROCESSING" None None None None (Some 0).

Definition monitor_store : Store :=
  {| store_db := scenario_db [processing_image] [manual_match 1 "M110"];
     solve_columns := ∅ |}.

(** The same image before any submission. *)
Definition waiting_store : Store :=
  {| store_db :=
       scenario_db [scenario_image 1 false "NONE" None None None None (Some 0)]
                   [manual_match 1 "M110"];
     solve_columns := ∅ |}.

Definition scenario_clock (k : nat) : Z := 100 + Z.of_nat k.


Definition failing_polls : SolverPolls :=
  scripted_solver (Ok [Some 77]) (Ok "failure") (Raised HTTPError).

Definition late_polls : SolverPolls :=
  {| get_submission_status := λ a _ _,
       if (a <? 3)%nat then Ok [] else Ok [Some 77];
     get_job_status := λ _ _ _, Ok "solving";
     get_calibration := λ _ _, Ok m31_calibration |}.

Definition flaky_polls : SolverPolls :=
  {| get_submission_status := λ _ _ _, Ok [Some 77];
     get_job_status := λ a _ _,
       if (a <? 2)%nat then Ok "solving" else Raised HTTPError;
     get_calibration := λ _ _, Ok m31_calibration |}.

Definition crashing_polls : SolverPolls :=
  scripted_solver (Ok [Some 77]) (Raised HTTPError) (Ok m31_calibration).

Definition solved_polls : SolverPolls :=
  scripted_solver (Ok [Some 77]) (Ok "success") (Ok m31_calibration).

(** The monitor and the task on the collaborators of the scenarios. *)
Definition scenario_monitor (polls : SolverPolls) (st : Store)
  : MonitorOutcome * Store :=
  @_monitor_logic libm_unrotated linear_astropy meridian_postgis polls
    local_settings scenario_clock "4242" 1 st.

Definition scenario_task (polls : SolverPolls) (st : Store)
  : (TaskOutcome + MonitorOutcome) * Store :=
  @astrometry_task libm_unrotated linear_astropy meridian_postgis
    accepting_solver polls local_settings (local_redis None) scenario_clock
    10 20 1 st.

(** The field without a pixel scale, so that no WCS can be built, over a
    Messier table that lists M31 twice, a quarter of a degree apart, with
    a MANUAL row for an object outside the field. *)
Definition twin_db : Database :=
  {| images := [unscaled_image];
     messier_catalog := [ catalog_object "M31" 10 41; catalog_object "M31" 10 41.25 ];
     ngc_catalog := [];
     named_star_catalog := [];
     image_catalog_matches := [manual_match 1 "M110"] |}.

(** ** Vocabulary of the statements *)

(** The candidates in the order the nested loops visit them. *)
Definition candidates (all_matches : list (CatalogType * list FieldRow))
  : list (CatalogType * FieldRow) :=
  all_matches ≫= (λ '(cat_type, rows), (λ row, (cat_type, row)) <$> rows).

(** The deduplication key of a candidate and of a stored row. *)
Definition candidate_key (c : CatalogType * FieldRow) : CatalogType * string :=
  (c.1, row_designation c.2).

Definition row_key (m : ImageCatalogMatch) : CatalogType * string :=
  (catalog_type m, catalog_designation m).

(** The AUTOMATIC rows stored for an image. *)
Definition automatic_rows (image_id' : Z) (db : Database) : list ImageCatalogMatch :=
  filter (is_automatic_of image_id') (image_catalog_matches db).

Section Loop.
Context `{Libm, Astropy, PostGIS}.
Variables (db : Database) (wcs : option WCS) (image : Image.t) (image_id' : Z).

Definition visit_candidate (st : LoopState) (c : CatalogType * FieldRow)
  : LoopState :=
  visit db wcs image image_id' c.1 st c.2.

(** [m] was built from the first of the [processed] candidates that carry
    its key. *)
Definition first_wins (processed : list (CatalogType * FieldRow))
    (m : ImageCatalogMatch) : Prop :=
  ∃ pre c post,
    processed = pre ++ c :: post ∧ m = new_match image_id' c.1 c.2 ∧
    ∀ c', c' ∈ pre → candidate_key c' ≠ candidate_key c.

(** What holds of the loop state once [processed] has been visited. *)
Record loop_inv (processed : list (CatalogType * FieldRow)) (st : LoopState)
  : Prop := {
  inv_seen : ∀ k, k ∈ seen_keys st ↔ k ∈ row_key <$> added st;
  inv_first : ∀ m, m ∈ added st → first_wins processed m;
  inv_nodup : NoDup (row_key <$> added st);
  inv_valid : ∀ m, m ∈ added st →
    validated db wcs image (catalog_type m) (catalog_designation m) = true;
  inv_cover : ∀ c, c ∈ processed →
    candidate_key c ∈ seen_keys st ∨
    validated db wcs image c.1 (row_designation c.2) = false;
  inv_count : count st = Z.of_nat (length (added st));
}.

(** The extended bounds: [-100 <= x <= width + 100] and
    [-100 <= y <= height + 100], with the comparisons the code makes. *)
Definition in_extended_bounds (x y : float) (width height : Z) : Prop :=
  (float_of_Z (-100) <=? x)%float = true ∧
  (x <=? float_of_Z (width + 100))%float = true ∧
  (float_of_Z (-100) <=? y)%float = true ∧
  (y <=? float_of_Z (height + 100))%float = true.

(** The stored row [m] names an object whose catalogued position projects,
    through [w], inside the extended bounds of the image. *)
Definition pixel_checked (w : WCS) (m : ImageCatalogMatch) : Prop :=
  ∃ ra dec x y width height,
    _get_catalog_coords db (catalog_type m) (catalog_designation m) = Some (ra, dec) ∧
    world_to_pixel_values w ra dec = Ok (x, y) ∧
    Image.width_pixels image = Some width ∧
    Image.height_pixels image = Some height ∧
    in_extended_bounds x y width height.

(** [radius = image.field_radius_degrees or 1.0]. *)
Definition search_radius : float :=
  or_default (Image.field_radius_degrees image) 1.0%float.

(** The image passes the guards at the top of [match_image], with centre
    [(ra, dec)]. *)
Definition matchable (ra dec : float) : Prop :=
  session_get (images db) image_id' = Some image ∧
  Image.is_plate_solved image = true ∧
  nonzero (Image.ra_center_degrees image) = Some ra ∧
  nonzero (Image.dec_center_degrees image) = Some dec.

(** The candidates of a run, and the loop state after all of them. *)
Definition field_candidates (ra dec : float) : list (CatalogType * FieldRow) :=
  candidates (all_matches_of db ra dec search_radius).

Definition loop_result (ra dec : float) : LoopState :=
  validate_all db (_construct_wcs image) image image_id'
    (all_matches_of db ra dec search_radius)
    {| seen_keys := ∅; added := []; count := 0 |}.

End Loop.

(** The candidate [c] is among the AUTOMATIC rows stored for the image. *)
Definition accepted (image_id' : Z) (db' : Database)
    (c : CatalogType * FieldRow) : Prop :=
  ∃ m, m ∈ automatic_rows image_id' db' ∧ row_key m = candidate_key c.

(** The collaborators of the worked scenarios. *)
Definition scenario_match : Database → Z → result Z * Database :=
  @match_image libm_unrotated linear_astropy meridian_postgis.

(** The table a catalog type is looked up in. *)
Definition catalog_table (db : Database) (cat_type : CatalogType)
  : list CatalogObject :=
  match cat_type with
  | MESSIER => messier_catalog db
  | NGC | IC => ngc_catalog db
  | NAMED_STAR => named_star_catalog db
  end.

(** The entries every upload request starts from. *)
Definition base_request (session_key : string) : gmap string json :=
  <["session" := JString session_key]>
    (<["allow_modifications" := JString "d"]>
       (<["allow_commercial_use" := JString "d"]>
          {["publicly_visible" := JString "n"]})).

(** An image that a bulk run submits: not PLANETARY and, unless the run is
    forced, neither in flight nor SOLVED. *)
Definition eligible (force : bool) (img : BulkImage) : bool :=
  negb (bool_decide (subtype img = PLANETARY))
  && (force
      || negb (bool_decide (Image.astrometry_status (bulk_row img)
                            ∈ ["SUBMITTED"; "PROCESSING"; "SOLVED"]))).

(** An image whose solution was imported from its header: plate solved,
    but not by the solver. *)
Definition imported (img : BulkImage) : bool :=
  Image.is_plate_solved (bulk_row img)
  && negb (bool_decide (Image.astrometry_status (bulk_row img) = "SOLVED")).

(** Two versions of an image row that differ at most in the columns of
    the submission: provider, submission id, status and [updated_at]. *)
Definition same_solution (a b : Image.t) : Prop :=
  Image.id b = Image.id a ∧
  Image.file_path b = Image.file_path a ∧
  Image.width_pixels b = Image.width_pixels a ∧
  Image.height_pixels b = Image.height_pixels a ∧
  Image.is_plate_solved b = Image.is_plate_solved a ∧
  Image.ra_center_degrees b = Image.ra_center_degrees a ∧
  Image.dec_center_degrees b = Image.dec_center_degrees a ∧
  Image.field_radius_degrees b = Image.field_radius_degrees a ∧
  Image.pixel_scale_arcsec b = Image.pixel_scale_arcsec a ∧
  Image.rotation_degrees b = Image.rotation_degrees a ∧
  Image.raw_header b = Image.raw_header a.

(** [db'] holds the same images as [db], row for row with the same
    solution, the same catalogs and the same match rows. *)
Definition solutions_kept (db db' : Database) : Prop :=
  Forall2 same_solution (images db) (images db') ∧
  messier_catalog db' = messier_catalog db ∧
  ngc_catalog db' = ngc_catalog db ∧
  named_star_catalog db' = named_star_catalog db ∧
  image_catalog_matches db' = image_catalog_matches db.

(** What the polling loop may have changed between [st] and [st']: for the
    image [j], the status columns and the stored job id; nothing else. *)
Definition polled (j : Z) (st st' : Store) : Prop :=
  solutions_kept (store_db st) (store_db st') ∧
  (∀ k, k ≠ j →
     session_get (images (store_db st')) k = session_get (images (store_db st)) k) ∧
  (∀ k, k ≠ j → solve_columns st' !! k = solve_columns st !! k) ∧
  astrometry_url (columns_of st' j) = astrometry_url (columns_of st j) ∧
  plate_solve_source (columns_of st' j) = plate_solve_source (columns_of st j).

(** The job a submission status reports, as the loop reads it: the first
    entry of [jobs] when there is one and it is not null. *)
Definition first_job (sub_status : result (list (option Z))) : option Z :=
  match sub_status with
  | Ok (Some job :: _) => Some job
  | _ => None
  end.

(** The [job_id] variable after [remaining] attempts, from attempt [k] on,
    none of which leaves the loop: the last job that a poll has shown. *)
Fixpoint last_job_seen (sub_status : nat → result (list (option Z)))
    (remaining k : nat) (job_id : option Z) : option Z :=
  match remaining with
  | O => job_id
  | S remaining' =>
      last_job_seen sub_status remaining' (S k)
        (match first_job (sub_status k) with
         | Some job => Some job
         | None => job_id
         end)
  end.

(** [catalog_designation = Column(String(20))] in [models/matches.py]:
    a designation that the match table stores as it is. *)
Definition fits_designation (d : string) : Prop := (String.length d ≤ 20)%nat.

(** ** Properties of the catalog matcher *)

(** Membership in a list that the goal computes. *)
Ltac computed_elem :=
  vm_compute; repeat first [apply list_elem_of_here | apply list_elem_of_further].

(** Membership in a list extended by one element. *)
Ltac snoc_cases H :=
  apply elem_of_app in H as [H|H];
  [|apply list_elem_of_singleton in H; subst].

Section MatcherFacts.
Context `{Libm, Astropy, PostGIS}.

Lemma insert_all_ok new : ∀ tbl tbl',
  insert_all tbl new = Ok tbl' → tbl' = tbl ++ new.
Proof.
  induction new as [|m new IH]; intros tbl tbl'; simpl.
  - intros [= <-]. by rewrite app_nil_r.
  - case_decide; [done|]. intros Hrec%IH. by rewrite Hrec, <- app_assoc.
Qed.

Lemma insert_all_fresh new : ∀ tbl tbl',
  insert_all tbl new = Ok tbl' →
  ∀ m, m ∈ new → match_key m ∉ match_key <$> tbl.
Proof.
  induction new as [|m new IH]; intros tbl tbl'; simpl.
  - intros _ m Hm. by apply elem_of_nil in Hm.
  - case_decide as Hfresh; [done|]. intros Hrec m' Hm'.
    apply elem_of_cons in Hm' as [->|Hm']; [done|].
    specialize (IH _ _ Hrec m' Hm'). rewrite fmap_app in IH.
    intros Hin. apply IH, elem_of_app. by left.
Qed.

Lemma insert_all_nodup new : ∀ tbl tbl',
  insert_all tbl new = Ok tbl' →
  NoDup (match_key <$> tbl) → NoDup (match_key <$> tbl').
Proof.
  induction new as [|m new IH]; intros tbl tbl'; simpl.
  - by intros [= <-].
  - case_decide as Hfresh; [done|]. intros Hrec Hnd. apply (IH _ _ Hrec).
    rewrite fmap_app. apply NoDup_app. split_and!; [done| |apply NoDup_singleton].
    intros k Hk Hk'. apply list_elem_of_singleton in Hk'. by subst k.
Qed.

Lemma new_match_automatic i ct row : is_automatic_of i (new_match i ct row).
Proof. done. Qed.

Lemma validate_all_flat db wcs image i all : ∀ st,
  validate_all db wcs image i all st
  = foldl (visit_candidate db wcs image i) st (candidates all).
Proof.
  unfold validate_all, candidates.
  induction all as [|[ct rows] all IH]; intros st; [done|].
  simpl. rewrite foldl_app, IH. f_equal.
  generalize st. clear. induction rows as [|row rows IH]; intros st; [done|].
  simpl. by rewrite IH.
Qed.

Lemma loop_inv_init db wcs image i :
  loop_inv db wcs image i [] {| seen_keys := ∅; added := []; count := 0 |}.
Proof.
  split; simpl.
  - intros k. split; [set_solver|]. by intros ?%elem_of_nil.
  - by intros m ?%elem_of_nil.
  - apply NoDup_nil_2.
  - by intros m ?%elem_of_nil.
  - by intros c ?%elem_of_nil.
  - done.
Qed.

Lemma first_wins_snoc i processed c m :
  first_wins i processed m → first_wins i (processed ++ [c]) m.
Proof.
  intros (pre & c0 & post & -> & -> & Hpre).
  exists pre, c0, (post ++ [c]). split_and!; [|done..].
  by rewrite <- app_assoc.
Qed.

Lemma loop_inv_visit db wcs image i processed st c :
  loop_inv db wcs image i processed st →
  loop_inv db wcs image i (processed ++ [c]) (visit_candidate db wcs image i st c).
Proof.
  intros [Hseen Hfirst Hnd Hvalid Hcover Hcount].
  unfold visit_candidate, visit.
  destruct c as [ct row]; simpl.
  case_decide as Hin.
  { split; try done.
    - intros m Hm. by apply first_wins_snoc, Hfirst.
    - intros c Hc. snoc_cases Hc; [by apply Hcover|by left]. }
  destruct (validated db wcs image ct (row_designation row)) eqn:Hval.
  2:{ split; try done.
      - intros m Hm. by apply first_wins_snoc, Hfirst.
      - intros c Hc. snoc_cases Hc; [by apply Hcover|by right]. }
  split; simpl.
  - intros k. rewrite fmap_app, elem_of_app, elem_of_union, Hseen. simpl.
    rewrite list_elem_of_singleton, elem_of_singleton. tauto.
  - intros m Hm. snoc_cases Hm.
    { by apply first_wins_snoc, Hfirst. }
    exists processed, (ct, row), []. split_and!; [done..|].
    intros c' Hc' Heq. unfold candidate_key in Heq. simpl in Heq.
    destruct (Hcover c' Hc') as [Hs|Hv].
    + apply Hin. unfold candidate_key in Hs. by rewrite Heq in Hs.
    + injection Heq as Hct Hdesig. rewrite Hct, Hdesig in Hv. congruence.
  - rewrite fmap_app. apply NoDup_app. split_and!; [done| |apply NoDup_singleton].
    intros k Hk Hk'. apply list_elem_of_singleton in Hk'. subst k.
    apply Hin. by apply Hseen.
  - intros m Hm. snoc_cases Hm; [by apply Hvalid|done].
  - intros c Hc. snoc_cases Hc.
    + destruct (Hcover c Hc) as [Hs|Hv]; [left|by right].
      apply elem_of_union. by right.
    + left. apply elem_of_union. left. by apply elem_of_singleton.
  - rewrite length_app. simpl. lia.
Qed.

Lemma loop_inv_foldl db wcs image i cs : ∀ processed st,
  loop_inv db wcs image i processed st →
  loop_inv db wcs image i (processed ++ cs)
    (foldl (visit_candidate db wcs image i) st cs).
Proof.
  induction cs as [|c cs IH]; intros processed st Hinv; simpl.
  - by rewrite app_nil_r.
  - replace (processed ++ c :: cs) with ((processed ++ [c]) ++ cs)
      by (by rewrite <- app_assoc).
    by apply IH, loop_inv_visit.
Qed.

End MatcherFacts.

Section FilterFacts.
Context {A : Type} (P : A → Prop) `{∀ x, Decision (P x)}.

Lemma filter_all l : Forall P l → filter P l = l.
Proof.
  induction 1 as [|x l Hx _ IH]; [done|].
  by rewrite filter_cons_True, IH.
Qed.

Lemma filter_none l : Forall (λ x, ¬ P x) l → filter P l = [].
Proof.
  induction 1 as [|x l Hx _ IH]; [done|].
  by rewrite filter_cons_False.
Qed.

Lemma NoDup_fmap_filter {B} (f : A → B) l :
  NoDup (f <$> l) → NoDup (f <$> filter P l).
Proof.
  induction l as [|x l IH]; [done|].
  rewrite fmap_cons, NoDup_cons, filter_cons. intros [Hx Hl].
  case_decide; [|by apply IH].
  rewrite fmap_cons, NoDup_cons. split; [|by apply IH].
  intros (y & Hfy & Hy)%list_elem_of_fmap. apply Hx.
  apply list_elem_of_fmap. exists y. split; [done|].
  by apply list_elem_of_filter in Hy as [_ Hy].
Qed.

End FilterFacts.

Section MatcherRuns.
Context `{Libm, Astropy, PostGIS}.

Lemma match_image_matchable db i image ra dec :
  matchable db image i ra dec →
  match_image db i =
    match insert_all (delete_automatic i (image_catalog_matches db))
                     (added (loop_result db image i ra dec)) with
    | Ok tbl => (Ok (count (loop_result db image i ra dec)), with_matches db tbl)
    | Raised e => (Raised e, db)
    end.
Proof.
  intros (Hget & Hsolved & Hra & Hdec).
  unfold match_image. by rewrite Hget, Hsolved, Hra, Hdec.
Qed.

Lemma match_image_skipped db i :
  (∀ image ra dec, ¬ matchable db image i ra dec) →
  match_image db i = (Ok 0, db).
Proof.
  intros Hskip. unfold match_image.
  destruct (session_get (images db) i) as [image|] eqn:Hget; [|done].
  destruct (Image.is_plate_solved image) eqn:Hsolved; [|done]. simpl.
  destruct (nonzero (Image.ra_center_degrees image)) as [ra|] eqn:Hra; [|done].
  destruct (nonzero (Image.dec_center_degrees image)) as [dec|] eqn:Hdec; [|done].
  by destruct (Hskip image ra dec).
Qed.

(** A run either skips the image or goes through the loop and the commit. *)
Lemma match_image_cases db i r db' :
  match_image db i = (r, db') →
  ((∀ image ra dec, ¬ matchable db image i ra dec) ∧ r = Ok 0 ∧ db' = db) ∨
  ∃ image ra dec,
    matchable db image i ra dec ∧
    ((r = Ok (count (loop_result db image i ra dec)) ∧
      db' = with_matches db
              (delete_automatic i (image_catalog_matches db)
                 ++ added (loop_result db image i ra dec)) ∧
      insert_all (delete_automatic i (image_catalog_matches db))
                 (added (loop_result db image i ra dec))
        = Ok (image_catalog_matches db')) ∨
     (∃ e, r = Raised e ∧ db' = db)).
Proof.
  intros Hrun.
  destruct (session_get (images db) i) as [image|] eqn:Hget.
  2:{ assert (∀ image ra dec, ¬ matchable db image i ra dec) as Hskip
        by (intros ??? (? & _); congruence).
      left. rewrite match_image_skipped in Hrun by done. by simplify_eq. }
  destruct (Image.is_plate_solved image) eqn:Hsolved.
  2:{ assert (∀ image ra dec, ¬ matchable db image i ra dec) as Hskip
        by (intros ??? (? & ? & _); congruence).
      left. rewrite match_image_skipped in Hrun by done. by simplify_eq. }
  destruct (nonzero (Image.ra_center_degrees image)) as [ra|] eqn:Hra.
  2:{ assert (∀ image ra dec, ¬ matchable db image i ra dec) as Hskip
        by (intros ??? (? & _ & ? & _); congruence).
      left. rewrite match_image_skipped in Hrun by done. by simplify_eq. }
  destruct (nonzero (Image.dec_center_degrees image)) as [dec|] eqn:Hdec.
  2:{ assert (∀ image ra dec, ¬ matchable db image i ra dec) as Hskip
        by (intros ??? (? & _ & _ & ?); congruence).
      left. rewrite match_image_skipped in Hrun by done. by simplify_eq. }
  right. exists image, ra, dec.
  assert (matchable db image i ra dec) as Hm by done. split; [done|].
  rewrite (match_image_matchable _ _ _ _ _ Hm) in Hrun.
  destruct (insert_all _ _) as [tbl|e] eqn:Hins; simplify_eq.
  - left. split_and!; [done| |done]. by rewrite (insert_all_ok _ _ _ Hins).
  - right. by exists e.
Qed.

Lemma select_in_field_elem tbl ra dec radius_meters row :
  row ∈ select_in_field tbl ra dec radius_meters →
  ∃ o loc, o ∈ tbl ∧ location o = Some loc ∧
           ST_DWithin loc (ra, dec) radius_meters = true ∧
           row = {| row_designation := designation o;
                    dist := (ST_Distance loc (ra, dec) / 111320.0)%float |}.
Proof.
  unfold select_in_field. intros (o & Hin & Hrow)%list_elem_of_omap.
  destruct (location o) as [loc|] eqn:Hloc; [|done].
  destruct (ST_DWithin loc (ra, dec) radius_meters) eqn:Hwithin; [|done].
  exists o, loc. by simplify_eq.
Qed.

(** Every candidate of a run is a catalog object that PostGIS places within
    the search radius of the centre. *)
Lemma field_candidates_in_radius db image ra dec c :
  c ∈ field_candidates db image ra dec →
  ∃ o loc,
    o ∈ messier_catalog db ++ ngc_catalog db ++ named_star_catalog db ∧
    location o = Some loc ∧
    ST_DWithin loc (ra, dec)
      (search_radius image * float_of_Z 111320)%float = true ∧
    c.2 = {| row_designation := designation o;
             dist := (ST_Distance loc (ra, dec) / 111320.0)%float |}.
Proof.
  unfold field_candidates, candidates, all_matches_of.
  cbn [mbind list_bind]. rewrite app_nil_r, !elem_of_app, !list_elem_of_fmap.
  unfold _find_messier_in_field, _find_ngc_in_field, _find_named_stars_in_field.
  intros [(row & -> & Hrow)|[(row & -> & Hrow)|(row & -> & Hrow)]]; simpl;
    try apply subseteq_take in Hrow;
    apply select_in_field_elem in Hrow as (o & loc & Hin & Hloc & Hw & ->);
    exists o, loc; rewrite !elem_of_app; tauto.
Qed.

Lemma loop_result_inv db image i ra dec :
  loop_inv db (_construct_wcs image) image i
    (field_candidates db image ra dec) (loop_result db image i ra dec).
Proof.
  unfold loop_result. rewrite validate_all_flat.
  apply (loop_inv_foldl _ _ _ _ _ []), loop_inv_init.
Qed.

Lemma loop_result_automatic db image i ra dec :
  Forall (is_automatic_of i) (added (loop_result db image i ra dec)).
Proof.
  apply Forall_forall. intros m Hm.
  destruct (inv_first _ _ _ _ _ _ (loop_result_inv db image i ra dec) m Hm)
    as (? & c & ? & _ & -> & _).
  apply new_match_automatic.
Qed.

Lemma insert_all_raised new : ∀ tbl e,
  insert_all tbl new = Raised e → e = IntegrityError.
Proof.
  induction new as [|m new IH]; intros tbl e; simpl; [done|].
  case_decide; [by intros [= <-]|]. apply IH.
Qed.

(** The INSERTs go through exactly when the new keys are pairwise different
    and none of them is stored already. *)
Lemma insert_all_accepts new : ∀ tbl,
  (∃ tbl', insert_all tbl new = Ok tbl') ↔
  NoDup (match_key <$> new) ∧
  ∀ m, m ∈ new → match_key m ∉ match_key <$> tbl.
Proof.
  induction new as [|m new IH]; intros tbl.
  - split; [|by eexists]. intros _. split; [apply NoDup_nil_2|].
    by intros m ?%elem_of_nil.
  - cbn [insert_all]. case_decide as Hin.
    + split; [by intros [? ?]|]. intros [_ Hfresh].
      destruct (Hfresh m); [apply list_elem_of_here|done].
    + rewrite IH, fmap_cons, NoDup_cons. split.
      * intros [Hnd Hfresh]. split_and!; [|done|].
        -- intros (m' & Hkey & Hm')%list_elem_of_fmap.
           apply (Hfresh m' Hm'). rewrite fmap_app, elem_of_app. right.
           rewrite <- Hkey. apply list_elem_of_here.
        -- intros m' Hm' Hstored. apply elem_of_cons in Hm' as [->|Hm']; [done|].
           apply (Hfresh m' Hm'). rewrite fmap_app, elem_of_app. by left.
      * intros [[Hm Hnd] Hfresh]. split; [done|].
        intros m' Hm'. rewrite fmap_app, elem_of_app. intros [Hstored|Hsame].
        -- apply (Hfresh m'); [by apply list_elem_of_further|done].
        -- apply list_elem_of_singleton in Hsame. apply Hm. rewrite <- Hsame.
           by apply list_elem_of_fmap_2.
Qed.

(** A refused INSERT names a key that is stored already. *)
Lemma insert_all_clash new : ∀ tbl e,
  NoDup (match_key <$> new) →
  insert_all tbl new = Raised e →
  ∃ m, m ∈ new ∧ match_key m ∈ match_key <$> tbl.
Proof.
  induction new as [|m new IH]; intros tbl e Hnd; [done|].
  rewrite fmap_cons in Hnd. apply NoDup_cons in Hnd as [Hm Hnd].
  cbn [insert_all]. case_decide as Hin.
  - intros _. exists m. split; [apply list_elem_of_here|done].
  - intros (m' & Hm' & Hkey)%IH; [|done]. exists m'.
    split; [by apply list_elem_of_further|].
    rewrite fmap_app, elem_of_app in Hkey. destruct Hkey as [?|Hsame]; [done|].
    apply list_elem_of_singleton in Hsame. destruct Hm. rewrite <- Hsame.
    by apply list_elem_of_fmap_2.
Qed.

Lemma added_keys db image i ra dec k :
  k ∈ row_key <$> added (loop_result db image i ra dec) ↔
  ∃ c, c ∈ field_candidates db image ra dec ∧ candidate_key c = k ∧
       validated db (_construct_wcs image) image c.1 (row_designation c.2) = true.
Proof.
  pose proof (loop_result_inv db image i ra dec) as Hinv. split.
  - intros (m & -> & Hm)%list_elem_of_fmap.
    pose proof (inv_valid _ _ _ _ _ _ Hinv m Hm) as Hvalid.
    destruct (inv_first _ _ _ _ _ _ Hinv m Hm) as (pre & c & post & Hsplit & -> & _).
    exists c. split_and!; [|done..].
    rewrite Hsplit, elem_of_app. right. apply list_elem_of_here.
  - intros (c & Hc & <- & Hvalid).
    destruct (inv_cover _ _ _ _ _ _ Hinv c Hc) as [Hseen|Hno]; [|congruence].
    by apply (inv_seen _ _ _ _ _ _ Hinv).
Qed.

(** With no stored row of another source in the way, the commit goes
    through: keys repeated among the candidates do not reach the INSERTs. *)
Lemma match_image_unrefused db i image ra dec :
  matchable db image i ra dec →
  (∀ m c, m ∈ image_catalog_matches db → image_id m = i →
          match_source m ≠ Some "AUTOMATIC" →
          c ∈ field_candidates db image ra dec →
          validated db (_construct_wcs image) image c.1 (row_designation c.2) = true →
          candidate_key c ≠ row_key m) →
  ∃ n db', match_image db i = (Ok n, db').
Proof.
  intros Hm Hfree. rewrite (match_image_matchable _ _ _ _ _ Hm).
  pose proof (loop_result_inv db image i ra dec) as Hinv.
  pose proof (loop_result_automatic db image i ra dec) as Hauto.
  destruct (proj2 (insert_all_accepts (added (loop_result db image i ra dec))
                     (delete_automatic i (image_catalog_matches db))))
    as [tbl ->]; [|by eexists _, _].
  split.
  - apply (NoDup_fmap_1 (λ k : Z * CatalogType * string, (k.1.2, k.2))).
    rewrite <- list_fmap_compose. apply (inv_nodup _ _ _ _ _ _ Hinv).
  - intros m' Hm' (m & Hkey & [Hkeep Hin]%list_elem_of_filter)%list_elem_of_fmap.
    rewrite Forall_forall in Hauto. destruct (Hauto m' Hm') as [Hid' _].
    assert (image_id m = i) as Hid by (unfold match_key in Hkey; congruence).
    assert (row_key m' ∈ row_key <$> added (loop_result db image i ra dec))
      as (c & Hc & Hck & Hvalid)%added_keys by (by apply list_elem_of_fmap_2).
    apply (Hfree m c); try done.
    + intros Hsrc. by apply Hkeep.
    + rewrite Hck. unfold match_key in Hkey. unfold row_key. congruence.
Qed.

Lemma delete_automatic_idem i tbl :
  delete_automatic i (delete_automatic i tbl) = delete_automatic i tbl.
Proof.
  unfold delete_automatic. apply filter_all, Forall_forall.
  by intros m [? _]%list_elem_of_filter.
Qed.

Lemma delete_automatic_replaced i tbl new :
  Forall (is_automatic_of i) new →
  delete_automatic i (delete_automatic i tbl ++ new) = delete_automatic i tbl.
Proof.
  intros Hnew. unfold delete_automatic at 1. rewrite filter_app.
  fold (delete_automatic i (delete_automatic i tbl)).
  rewrite delete_automatic_idem, filter_none, app_nil_r; [done|].
  eapply Forall_impl; [exact Hnew|]. tauto.
Qed.

Lemma automatic_rows_replaced i db tbl new :
  Forall (is_automatic_of i) new →
  automatic_rows i (with_matches db (delete_automatic i tbl ++ new)) = new.
Proof.
  intros Hnew. unfold automatic_rows. simpl. rewrite filter_app.
  rewrite (filter_none _ (delete_automatic i tbl)), (filter_all _ new); [done..|].
  apply Forall_forall. by intros m [? _]%list_elem_of_filter.
Qed.

(** The catalogs and the image are as before, so a second run repeats the
    loop of the first. *)
Lemma loop_result_with_matches db tbl image i ra dec :
  loop_result (with_matches db tbl) image i ra dec = loop_result db image i ra dec.
Proof. reflexivity. Qed.

End MatcherRuns.

Section MatcherClaims.
Context `{Libm, Astropy, PostGIS}.

Lemma validated_pixel_checked db image w m :
  validated db (Some w) image (catalog_type m) (catalog_designation m) = true →
  pixel_checked db image w m.
Proof.
  unfold validated, pixel_checked, _is_in_image_bounds.
  destruct (_get_catalog_coords _ _ _) as [[ra dec]|]; [|done].
  destruct (world_to_pixel_values w ra dec) as [[x y]|] eqn:Hproj; [|done].
  destruct (Image.width_pixels image) as [width|]; [|done].
  destruct (Image.height_pixels image) as [height|]; [|done].
  intros [[Hx1 Hx2]%andb_prop [Hy1 Hy2]%andb_prop]%andb_prop.
  exists ra, dec, x, y, width, height. by repeat split.
Qed.

(** After a successful run the AUTOMATIC rows of the image are the rows the
    loop handed to [session.add]. *)
Lemma automatic_rows_of_run db i n db' image ra dec :
  matchable db image i ra dec →
  match_image db i = (Ok n, db') →
  automatic_rows i db' = added (loop_result db image i ra dec) ∧
  n = count (loop_result db image i ra dec) ∧
  image_catalog_matches db'
    = delete_automatic i (image_catalog_matches db)
        ++ added (loop_result db image i ra dec).
Proof.
  intros Hm Hrun. rewrite (match_image_matchable _ _ _ _ _ Hm) in Hrun.
  destruct (insert_all _ _) as [tbl|e] eqn:Hins; [|done].
  apply insert_all_ok in Hins as ->. injection Hrun as <- <-.
  split_and!; [|done..].
  apply automatic_rows_replaced, loop_result_automatic.
Qed.

(** C1: when WCS construction succeeds, every row [match_image] writes for
    the image names an object whose catalogued sky position projects to
    pixel coordinates (x, y) with -100 <= x <= width_pixels + 100 and
    -100 <= y <= height_pixels + 100; when WCS construction gives no model,
    every candidate returned by the radius queries is accepted without any
    pixel validation. *)
Theorem match_image_validates_pixels db i n db' image ra dec :
  matchable db image i ra dec →
  match_image db i = (Ok n, db') →
  (∀ w, _construct_wcs image = Some w →
        ∀ m, m ∈ automatic_rows i db' → pixel_checked db image w m) ∧
  (_construct_wcs image = None →
        ∀ c, c ∈ field_candidates db image ra dec → accepted i db' c).
Proof.
  intros Hm Hrun.
  destruct (automatic_rows_of_run _ _ _ _ _ _ _ Hm Hrun) as (Hrows & _ & _).
  pose proof (loop_result_inv db image i ra dec) as Hinv.
  split.
  - intros w Hw m Hin. rewrite Hrows in Hin.
    apply validated_pixel_checked. rewrite <- Hw.
    by apply (inv_valid _ _ _ _ _ _ Hinv).
  - intros Hw c Hc. unfold accepted. rewrite Hrows.
    destruct (inv_cover _ _ _ _ _ _ Hinv c Hc) as [Hseen|Hval].
    + apply (inv_seen _ _ _ _ _ _ Hinv), list_elem_of_fmap in Hseen
        as (m & Hkey & Hin).
      by exists m.
    + rewrite Hw in Hval. done.
Qed.

(** C2: running [match_image] again on the state a successful run left
    behind returns the same count and leaves the same rows, so the set of
    AUTOMATIC rows is that of a single run; the table keeps its unique key;
    the rows written for the image carry pairwise different
    (catalog type, designation) keys, each row coming from the first
    candidate, in visiting order, that carries its key, and every
    validated candidate has its key among them.  Keys repeated among the
    candidates are dropped before the INSERTs, so they never make a run
    fail: a run on a matched image whose validated designations fit the
    column goes through unless a stored row of another source carries
    the key of a validated candidate. *)
Theorem match_image_idempotent db i :
  (∀ n db',
     match_image db i = (Ok n, db') →
     match_image db' i = (Ok n, db') ∧
     (NoDup (match_key <$> image_catalog_matches db) →
      NoDup (match_key <$> image_catalog_matches db')) ∧
     (∀ image ra dec, matchable db image i ra dec →
        NoDup (row_key <$> automatic_rows i db') ∧
        (∀ m, m ∈ automatic_rows i db' →
           first_wins i (field_candidates db image ra dec) m) ∧
        (∀ c, c ∈ field_candidates db image ra dec →
           validated db (_construct_wcs image) image c.1 (row_designation c.2) = true →
           accepted i db' c))) ∧
  (∀ image ra dec,
     matchable db image i ra dec →
     (∀ c, c ∈ field_candidates db image ra dec →
        validated db (_construct_wcs image) image c.1 (row_designation c.2) = true →
        fits_designation (row_designation c.2)) →
     (∀ m c, m ∈ image_catalog_matches db → image_id m = i →
        match_source m ≠ Some "AUTOMATIC" →
        c ∈ field_candidates db image ra dec →
        validated db (_construct_wcs image) image c.1 (row_designation c.2) = true →
        candidate_key c ≠ row_key m) →
     ∃ n db', match_image db i = (Ok n, db')).
Proof.
  split.
  - intros n db' Hrun.
    destruct (match_image_cases _ _ _ _ Hrun)
      as [(Hskip & Hn & Hdb)|(image & ra & dec & Hm & [(Hn & Hdb & Hins)|(e & ? & _)])].
    + subst db'. split_and!; [done..|].
      intros image ra dec Hm. by destruct (Hskip image ra dec).
    + pose proof (loop_result_inv db image i ra dec) as Hinv.
      pose proof (loop_result_automatic db image i ra dec) as Hauto.
      destruct (automatic_rows_of_run _ _ _ _ _ _ _ Hm Hrun) as (Hrows & _ & Htbl).
      split_and!.
      * assert (matchable db' image i ra dec) as Hm' by (by rewrite Hdb).
        rewrite (match_image_matchable _ _ _ _ _ Hm'), Htbl.
        rewrite delete_automatic_replaced by done.
        assert (loop_result db' image i ra dec = loop_result db image i ra dec)
          as -> by (rewrite Hdb; apply loop_result_with_matches).
        rewrite Hins. injection Hn as ->. f_equal. by destruct db'.
      * intros Hnd. eapply insert_all_nodup; [exact Hins|].
        by apply NoDup_fmap_filter.
      * intros image' ra' dec' Hm''.
        destruct Hm as (Hget & _ & Hra & Hdec), Hm'' as (Hget' & _ & Hra' & Hdec').
        rewrite Hget in Hget'. injection Hget' as <-.
        rewrite Hra in Hra'. injection Hra' as <-.
        rewrite Hdec in Hdec'. injection Hdec' as <-.
        rewrite Hrows. split_and!.
        -- apply (inv_nodup _ _ _ _ _ _ Hinv).
        -- intros m Hin. by apply (inv_first _ _ _ _ _ _ Hinv).
        -- intros c Hc Hvalid. unfold accepted. rewrite Hrows.
           assert (candidate_key c
                   ∈ row_key <$> added (loop_result db image i ra dec))
             as (m & Hkey & Hin)%list_elem_of_fmap
             by (apply added_keys; by exists c).
           by exists m.
    + done.
  - intros image ra dec Hm _ Hfree. by eapply match_image_unrefused.
Qed.

(** Every row a run writes stores [1.0 - dist / 5.0], not clamped. *)
Lemma match_image_confidence db i n db' image ra dec :
  matchable db image i ra dec →
  match_image db i = (Ok n, db') →
  ∀ m, m ∈ automatic_rows i db' →
    ∃ d, angular_separation_degrees m = Some d ∧
         confidence_score m = Some (1.0 - d / 5.0)%float.
Proof.
  intros Hm Hrun m Hin.
  destruct (automatic_rows_of_run _ _ _ _ _ _ _ Hm Hrun) as (Hrows & _ & _).
  rewrite Hrows in Hin.
  destruct (inv_first _ _ _ _ _ _ (loop_result_inv db image i ra dec) m Hin)
    as (? & c & ? & _ & -> & _).
  by exists (dist c.2).
Qed.

(** C4: for an image that does not exist, is not plate-solved, or has no
    centre coordinates, [match_image] returns 0 and the stored state is
    exactly what it was: nothing is deleted and nothing is inserted. *)
Theorem match_image_noop db i :
  session_get (images db) i = None ∨
  (∃ image, session_get (images db) i = Some image ∧
     (Image.is_plate_solved image = false ∨
      Image.ra_center_degrees image = None ∨
      Image.dec_center_degrees image = None)) →
  match_image db i = (Ok 0, db).
Proof.
  intros Hcase. apply match_image_skipped.
  intros image ra dec (Hget & Hsolved & Hra & Hdec).
  destruct Hcase as [Hnone|(image' & Hget' & [Hunsolved|[Hnora|Hnodec]])];
    simplify_eq; try congruence.
  - by rewrite Hnora in Hra.
  - by rewrite Hnodec in Hdec.
Qed.

(** C10: a centre coordinate equal to exactly 0.0 counts as absent: when
    [ra_center_degrees] or [dec_center_degrees] is 0.0, [match_image]
    returns 0 and writes nothing, whatever else the image carries. *)
Theorem match_image_zero_center db i image :
  session_get (images db) i = Some image →
  Image.ra_center_degrees image = Some 0%float ∨
  Image.dec_center_degrees image = Some 0%float →
  match_image db i = (Ok 0, db).
Proof.
  intros Hget Hzero. apply match_image_skipped.
  intros image' ra dec (Hget' & _ & Hra & Hdec). simplify_eq.
  destruct Hzero as [Hzero|Hzero].
  - by rewrite Hzero in Hra.
  - by rewrite Hzero in Hdec.
Qed.

(** C5: a run of [match_image] leaves every row that is not an AUTOMATIC
    row of the given image exactly as it was, in place and in number: rows
    of other images, and MANUAL and HEADER rows of this image, are neither
    removed nor added; the images themselves are not touched. *)
Theorem match_image_frame db i :
  delete_automatic i (image_catalog_matches (match_image db i).2)
    = delete_automatic i (image_catalog_matches db) ∧
  images (match_image db i).2 = images db ∧
  ∀ m, image_id m ≠ i ∨ match_source m = Some "MANUAL"
                      ∨ match_source m = Some "HEADER" →
       m ∈ image_catalog_matches (match_image db i).2
       ↔ m ∈ image_catalog_matches db.
Proof.
  assert (delete_automatic i (image_catalog_matches (match_image db i).2)
            = delete_automatic i (image_catalog_matches db) ∧
          images (match_image db i).2 = images db) as [Hrows Himages].
  { destruct (match_image db i) as [r db'] eqn:Hrun. simpl.
    destruct (match_image_cases _ _ _ _ Hrun)
      as [(_ & _ & ->)|(image & ra & dec & Hm & [(_ & -> & _)|(e & _ & ->)])];
      [done| |done].
    split; [|done]. simpl.
    apply delete_automatic_replaced, loop_result_automatic. }
  split_and!; [done..|].
  intros m Hother.
  assert (¬ is_automatic_of i m) as Hkeep.
  { intros [Hid Hsrc]. destruct Hother as [?|[?|?]]; congruence. }
  transitivity (m ∈ delete_automatic i (image_catalog_matches (match_image db i).2)).
  - unfold delete_automatic. rewrite list_elem_of_filter. tauto.
  - rewrite Hrows. unfold delete_automatic. rewrite list_elem_of_filter. tauto.
Qed.

End MatcherClaims.

(** ** The matcher on the worked scenarios *)

Lemma match_image_validates_pixels_witness :
  (∀ w, @_construct_wcs libm_unrotated linear_astropy m31_image = Some w →
        ∀ m, m ∈ automatic_rows 1 (scenario_match m31_db 1).2 →
             @pixel_checked linear_astropy m31_db m31_image w m) ∧
  (@_construct_wcs libm_unrotated linear_astropy m31_image = None →
        ∀ c, c ∈ @field_candidates meridian_postgis m31_db m31_image 10 41 →
             accepted 1 (scenario_match m31_db 1).2 c).
Proof.
  apply (@match_image_validates_pixels libm_unrotated linear_astropy
           meridian_postgis m31_db 1 3 _ m31_image 10 41).
  - by vm_compute.
  - by vm_compute.
Defined.

Lemma match_image_idempotent_witness :
  ∃ db',
    scenario_match twin_db 1 = (Ok 1, db') ∧
    scenario_match db' 1 = (Ok 1, db') ∧
    (NoDup (match_key <$> image_catalog_matches twin_db) →
     NoDup (match_key <$> image_catalog_matches db')) ∧
    NoDup (row_key <$> automatic_rows 1 db') ∧
    (∀ m, m ∈ automatic_rows 1 db' →
       first_wins 1 (@field_candidates meridian_postgis twin_db unscaled_image 10 41) m) ∧
    (∀ c, c ∈ @field_candidates meridian_postgis twin_db unscaled_image 10 41 →
       @validated linear_astropy twin_db
         (@_construct_wcs libm_unrotated linear_astropy unscaled_image) unscaled_image
         c.1 (row_designation c.2) = true →
       accepted 1 db' c).
Proof.
  destruct (@match_image_idempotent libm_unrotated linear_astropy
              meridian_postgis twin_db 1) as [Hagain Hsucceeds].
  assert (@matchable twin_db unscaled_image 1 10 41) as Hm by (by vm_compute).
  assert (Forall
            (λ c, fits_designation (row_designation c.2) ∧
                  Forall (λ m, candidate_key c ≠ row_key m)
                    (image_catalog_matches twin_db))
            (@field_candidates meridian_postgis twin_db unscaled_image 10 41))
    as Hcandidates.
  { unfold fits_designation. apply (bool_decide_unpack _). vm_compute. exact I. }
  rewrite Forall_forall in Hcandidates.
  destruct (Hsucceeds unscaled_image 10%float 41%float Hm) as (n & db' & Hrun).
  - intros c Hc _. by destruct (Hcandidates c Hc).
  - intros m c Hin _ _ Hc _. destruct (Hcandidates c Hc) as [_ Hfree].
    rewrite Forall_forall in Hfree. by apply Hfree.
  - assert (n = 1) as ->.
    { unfold scenario_match in *.
      assert (@match_image libm_unrotated linear_astropy meridian_postgis twin_db 1
              = (Ok 1, (@match_image libm_unrotated linear_astropy meridian_postgis
                          twin_db 1).2)) as Hone by (vm_compute; reflexivity).
      rewrite Hrun in Hone. by injection Hone. }
    exists db'. destruct (Hagain 1 db' Hrun) as (Hsame & Hkey & Hrows).
    destruct (Hrows unscaled_image 10%float 41%float Hm) as (Hnd & Hfirst & Hall).
    by split_and!.
Defined.

Lemma match_image_noop_witness :
  scenario_match unsolved_db 1 = (Ok 0, unsolved_db).
Proof.
  apply (@match_image_noop libm_unrotated linear_astropy meridian_postgis
           unsolved_db 1).
  right. eexists. split; [reflexivity|]. left. reflexivity.
Defined.

Lemma match_image_zero_center_witness :
  scenario_match zero_ra_db 1 = (Ok 0, zero_ra_db).
Proof.
  apply (@match_image_zero_center libm_unrotated linear_astropy
           meridian_postgis zero_ra_db 1 zero_ra_image).
  - reflexivity.
  - left. reflexivity.
Defined.

(** The image skipped above is plate-solved and a WCS can be built for
    it. *)
Example zero_ra_image_is_solved :
  Image.is_plate_solved zero_ra_image = true ∧
  is_Some (@_construct_wcs libm_unrotated linear_astropy zero_ra_image).
Proof. split; [done|]. eexists. vm_compute. reflexivity. Qed.

(** The specification's scenario: the object at the centre is matched with
    separation 0 and confidence 1; the object 2.5 degrees away is outside
    the radius; the object half a degree away is inside the radius but 900
    pixels above the reference pixel, and is rejected. *)
Example m31_scenario :
  (scenario_match m31_db 1).1 = Ok 3 ∧
  automatic_rows 1 (scenario_match m31_db 1).2 !! 0%nat
    = Some {| image_id := 1; catalog_type := MESSIER;
              catalog_designation := "M31";
              angular_separation_degrees := Some 0%float;
              is_in_field := Some true;
              match_source := Some "AUTOMATIC";
              confidence_score := Some 1%float |} ∧
  catalog_designation <$> automatic_rows 1 (scenario_match m31_db 1).2
    = ["M31"; "NGC206"; "nu And"].
Proof. by vm_compute. Qed.

(** Without a pixel scale no WCS is built and the object half a degree
    away is accepted as well. *)
Example degraded_scenario :
  @_construct_wcs libm_unrotated linear_astropy unscaled_image = None ∧
  catalog_designation <$> automatic_rows 1 (scenario_match unscaled_db 1).2
    = ["M31"; "M32"; "NGC206"; "nu And"].
Proof. by vm_compute. Qed.

(** C3 (contradicted by the code): on a field of radius 10 degrees the
    object 7.5 degrees from the centre is written with confidence -0.5,
    where max(0, 1 - 7.5 / 5.0) is 0. *)
Theorem wide_field_confidence_negative :
  ∃ m, m ∈ automatic_rows 1 (scenario_match wide_db 1).2 ∧
       catalog_designation m = "M33" ∧
       angular_separation_degrees m = Some 7.5%float ∧
       confidence_score m = Some (-0.5)%float ∧
       (-0.5 <? 0)%float = true ∧
       spec_confidence 7.5 = 0%float.
Proof.
  exists (@new_match 1 MESSIER {| row_designation := "M33"; dist := 7.5 |}).
  split_and!; [computed_elem|done..].
Qed.

(** ** Name lookup for named stars *)

Lemma filter_unique {A} (P : A → Prop) `{∀ x, Decision (P x)} (l : list A) x :
  NoDup l → x ∈ l → P x → (∀ y, y ∈ l → P y → y = x) → filter P l = [x].
Proof.
  induction l as [|a l IH]; intros Hnd Hin HP Huniq.
  - by apply elem_of_nil in Hin.
  - apply NoDup_cons in Hnd as [Ha Hnd].
    apply elem_of_cons in Hin as [->|Hin].
    + rewrite filter_cons_True by done. f_equal.
      apply filter_none, Forall_forall. intros y Hy HPy.
      apply Ha. rewrite <- (Huniq y); [done| |done]. by apply elem_of_cons; right.
    + assert (¬ P a) as Hna.
      { intros HPa. apply Ha. rewrite (Huniq a); [done| |done].
        by apply elem_of_cons; left. }
      rewrite filter_cons_False by done. apply IH; [done..|].
      intros y Hy. apply Huniq. by apply elem_of_cons; right.
Qed.

Lemma select_exact_found tbl d o :
  NoDup (designation <$> tbl) → o ∈ tbl → designation o = d →
  select_exact tbl d = Ok (Some o).
Proof.
  intros Hnd Hin Hd. unfold select_exact.
  rewrite (filter_unique _ tbl o); [done|by eapply NoDup_fmap_1|done..|].
  intros y Hy Hyd.
  apply list_elem_of_lookup in Hin as [j Hj], Hy as [k Hk].
  assert (j = k) as ->; [|congruence].
  eapply NoDup_lookup; [exact Hnd|..]; rewrite list_lookup_fmap.
  - by rewrite Hj.
  - rewrite Hk. simpl. congruence.
Qed.

(** C9, as amended: for named stars the lookup succeeds whenever the exact
    designation is stored, or whenever exactly one stored designation equals
    the queried one once all spaces are removed from both; the comparison
    keeps letter case. *)
Theorem named_star_lookup db desig o :
  NoDup (designation <$> named_star_catalog db) →
  o ∈ named_star_catalog db →
  designation o = desig ∨
  (remove_spaces (designation o) = remove_spaces desig ∧
   ∀ o', o' ∈ named_star_catalog db →
         remove_spaces (designation o') = remove_spaces desig → o' = o) →
  _get_catalog_coords db NAMED_STAR desig = Some (coords o).
Proof.
  intros Hnd Hin [Hexact|[Hnorm Huniq]]; unfold _get_catalog_coords.
  - by rewrite (select_exact_found _ _ o).
  - unfold select_exact.
    destruct (filter (λ o', designation o' = desig) (named_star_catalog db))
      as [|o1 [|o2 rest]] eqn:Hfilter; simpl.
    + unfold select_normalized.
      rewrite (filter_unique _ _ o); [done|by eapply NoDup_fmap_1|done..].
    + assert (o1 ∈ filter (λ o', designation o' = desig) (named_star_catalog db))
        as [Hd Ho1]%list_elem_of_filter by (rewrite Hfilter; apply list_elem_of_here).
      rewrite (Huniq o1 Ho1); [done|]. by rewrite Hd.
    + exfalso.
      assert (NoDup (designation <$> (o1 :: o2 :: rest))) as Hnd'.
      { rewrite <- Hfilter. by apply NoDup_fmap_filter. }
      assert (∀ y, y ∈ o1 :: o2 :: rest → designation y = desig) as Hall.
      { intros y Hy. rewrite <- Hfilter in Hy.
        by apply list_elem_of_filter in Hy as [? _]. }
      rewrite !fmap_cons in Hnd'. apply NoDup_cons in Hnd' as [Hne _].
      apply Hne. rewrite (Hall o1), <- (Hall o2).
      * apply list_elem_of_here.
      * apply list_elem_of_further, list_elem_of_here.
      * apply list_elem_of_here.
Qed.

Lemma named_star_lookup_witness :
  _get_catalog_coords (star_db [alpha_cen; hr_spaced]) NAMED_STAR "AlphaCen"
    = Some (coords alpha_cen).
Proof.
  apply (named_star_lookup (star_db [alpha_cen; hr_spaced]) "AlphaCen" alpha_cen).
  - simpl. repeat (apply NoDup_cons; split; [by vm_compute; inversion 1 as [|?? ? Hin]; inversion Hin|]).
    apply NoDup_nil_2.
  - apply list_elem_of_here.
  - right. split; [reflexivity|].
    intros o' Hin Heq.
    apply elem_of_cons in Hin as [->|Hin]; [done|].
    apply list_elem_of_singleton in Hin as ->. discriminate Heq.
Defined.

(** C9, as stated, fails: with "Alpha Cen" stored, the query "ALPHACEN" has
    the same uppercased, space-free form and finds nothing; and the query
    "HR  5459", whose space-free form is that of two stored designations,
    finds nothing either. *)
Lemma named_star_lookup_counterexample :
  (alpha_cen ∈ named_star_catalog (star_db [alpha_cen]) ∧
   spec_normalize (designation alpha_cen) = spec_normalize "ALPHACEN" ∧
   _get_catalog_coords (star_db [alpha_cen]) NAMED_STAR "ALPHACEN" = None) ∧
  (hr_spaced ∈ named_star_catalog (star_db [hr_spaced; hr_unspaced]) ∧
   spec_normalize (designation hr_spaced) = spec_normalize "HR  5459" ∧
   _get_catalog_coords (star_db [hr_spaced; hr_unspaced]) NAMED_STAR "HR  5459"
     = None).
Proof.
  split; (split_and!; [apply list_elem_of_here|reflexivity|reflexivity]).
Qed.

(** ** Properties of the plate-solve tasks *)

Section Updates.
Variable f : Image.t → Image.t.
Hypothesis f_id : ∀ img, Image.id (f img) = Image.id img.

Lemma update_image_ids imgs i :
  Image.id <$> update_image imgs i f = Image.id <$> imgs.
Proof.
  unfold update_image. rewrite <- list_fmap_compose.
  apply list_fmap_ext. intros _ img _. simpl. by case_bool_decide.
Qed.

(** Updating, one after the other, the rows whose keys are listed. *)
Lemma foldl_update_image (targets : list Image.t) : ∀ imgs,
  NoDup (Image.id <$> targets) →
  foldl (λ imgs img, update_image imgs (Image.id img) f) imgs targets
  = (λ img, if decide (Image.id img ∈ Image.id <$> targets) then f img else img)
      <$> imgs.
Proof.
  induction targets as [|s targets IH]; intros imgs Hnd.
  - rewrite <- (list_fmap_id imgs) at 1. by apply list_fmap_ext.
  - rewrite fmap_cons in Hnd. apply NoDup_cons in Hnd as [Hs Hnd].
    cbn [foldl]. rewrite IH by done.
    unfold update_image. rewrite <- list_fmap_compose.
    apply list_fmap_ext. intros _ img _. cbn [compose]. rewrite fmap_cons.
    case_bool_decide as Heq.
    + rewrite f_id, Heq. rewrite decide_False by done.
      rewrite decide_True; [done|]. apply list_elem_of_here.
    + destruct (decide (Image.id img ∈ Image.id <$> targets)) as [Hin|Hout].
      * rewrite decide_True; [done|]. by apply list_elem_of_further.
      * rewrite decide_False; [done|].
        intros [?|?]%elem_of_cons; [congruence|done].
Qed.

Lemma session_get_fmap (h : Image.t → Image.t) imgs img :
  (∀ x, Image.id (h x) = Image.id x) →
  NoDup (Image.id <$> imgs) → img ∈ imgs →
  session_get (h <$> imgs) (Image.id img) = Some (h img).
Proof.
  intros Hh. induction imgs as [|a imgs IH]; intros Hnd Hin.
  - by apply elem_of_nil in Hin.
  - rewrite fmap_cons in Hnd. apply NoDup_cons in Hnd as [Ha Hnd].
    simpl. rewrite Hh. apply elem_of_cons in Hin as [->|Hin].
    + by rewrite bool_decide_eq_true_2.
    + rewrite bool_decide_eq_false_2; [by apply IH|].
      intros Heq. apply Ha. rewrite Heq. by apply list_elem_of_fmap_2.
Qed.

End Updates.

Lemma in_flight_spec img :
  in_flight img = true ↔
  Image.astrometry_status img = "SUBMITTED" ∨
  Image.astrometry_status img = "PROCESSING".
Proof.
  unfold in_flight. rewrite bool_decide_eq_true, !elem_of_cons, elem_of_nil. tauto.
Qed.

Lemma is_stuck_spec t img :
  is_stuck t img = true ↔
  (Image.astrometry_status img = "SUBMITTED" ∨
   Image.astrometry_status img = "PROCESSING") ∧
  ∃ u, Image.updated_at img = Some u ∧ u < t.
Proof.
  unfold is_stuck. rewrite andb_true_iff, in_flight_spec.
  destruct (Image.updated_at img) as [u|].
  - rewrite bool_decide_eq_true. split.
    + intros [? ?]. split; [done|]. by exists u.
    + intros [? (u' & [= <-] & ?)]. done.
  - split; [by intros [_ ?]|]. by intros [_ (u & ? & _)].
Qed.

Lemma stuck_ids now imgs img :
  NoDup (Image.id <$> imgs) → img ∈ imgs →
  Image.id img ∈ Image.id <$> filter (λ x, is_stuck now x = true) imgs
  ↔ is_stuck now img = true.
Proof.
  intros Hnd Hin. rewrite list_elem_of_fmap. split.
  - intros (s & Hid & [Hs Hsin]%list_elem_of_filter).
    apply list_elem_of_lookup in Hin as [j Hj], Hsin as [k Hk].
    assert (j = k) as ->; [|congruence].
    eapply NoDup_lookup; [exact Hnd|..]; rewrite list_lookup_fmap.
    + by rewrite Hj.
    + rewrite Hk. simpl. congruence.
  - intros Hs. exists img. split; [done|]. by apply list_elem_of_filter.
Qed.

(** What the sweep leaves in the table, row by row. *)
Lemma cleanup_images db now commit_time :
  NoDup (Image.id <$> images db) →
  images (cleanup_stuck_astrometry db now commit_time).2
  = (λ img, if is_stuck (now - five_minutes) img
            then set_status "FAILED" commit_time img else img) <$> images db.
Proof.
  intros Hnd. unfold cleanup_stuck_astrometry.
  set (stuck := filter _ (images db)).
  assert (images (with_images db
            (foldl (λ imgs img, update_image imgs (Image.id img)
                                  (set_status "FAILED" commit_time))
                   (images db) stuck))
          = (λ img, if is_stuck (now - five_minutes) img
                    then set_status "FAILED" commit_time img else img)
              <$> images db) as Hswept.
  { simpl. rewrite foldl_update_image; [|done|by apply NoDup_fmap_filter].
    apply list_fmap_ext. intros _ img Hin%list_elem_of_lookup_2.
    pose proof (stuck_ids (now - five_minutes) _ _ Hnd Hin) as Hiff.
    fold stuck in Hiff. case_decide as Hdec.
    - apply Hiff in Hdec. by rewrite Hdec.
    - destruct (is_stuck _ img) eqn:Hs; [|done]. exfalso. by apply Hdec, Hiff. }
  destruct stuck as [|s stuck'] eqn:Hstuck; [|exact Hswept].
  simpl. by rewrite <- Hswept.
Qed.



(** The reaper scenario as a whole: one image is swept, the count is 1. *)
Example reaper_scenario :
  (cleanup_stuck_astrometry reaper_db sweep_time (sweep_time + 1)).1 = 1 ∧
  Image.astrometry_status <$>
    images (cleanup_stuck_astrometry reaper_db sweep_time (sweep_time + 1)).2
  = ["FAILED"; "PROCESSING"; "SOLVED"].
Proof. by vm_compute. Qed.

Section SubmissionClaims.
Context `{SolverIO}.

(** C8: when the lock is held and the number of images in SUBMITTED or
    PROCESSING is at or above the ceiling (8 unless the settings document
    says otherwise), the attempt ends in a retry after 20 seconds, no upload
    is made, and the stored state, the image's status included, is what it
    was. *)
Theorem rescan_throttled settings redis db now now' i :
  api_key (resolve_endpoint settings redis) ≠ "" →
  reachable redis = true →
  lock_acquired redis = true →
  (max_submissions redis ≤ active_count db)%Z →
  _rescan_logic settings redis db now now' i = (Retry 20, db) ∧
  _rescan_prepare settings redis db now i = (inl (Retry 20), db) ∧
  max_submissions redis
    = default 8 (system_settings redis ≫= astrometry_max_submissions).
Proof.
  intros Hkey Hup Hlock Hfull.
  assert (_rescan_prepare settings redis db now i = (inl (Retry 20), db)) as Hprep.
  { unfold _rescan_prepare.
    rewrite bool_decide_eq_false_2 by done.
    rewrite Hup, Hlock. simpl.
    by rewrite bool_decide_eq_true_2. }
  split_and!; [|done|].
  - unfold _rescan_logic. by rewrite Hprep.
  - unfold max_submissions, read_setting. rewrite Hup.
    by destruct (system_settings redis).
Qed.

(** C6: when the image's status before the submission was FAILED, the
    upload is called with an empty hints dictionary, whatever centre, radius
    and pixel scale the image still stores; the request then carries no
    position key, and no scale other than the fixed default range. *)
Theorem failed_resubmission_is_blind settings redis db now i image call db' :
  session_get (images db) i = Some image →
  Image.astrometry_status image = "FAILED" →
  _rescan_prepare settings redis db now i = (inr call, db') →
  call_hints call = ∅ ∧
  ∀ session_key,
    let req := request_json session_key (call_base_url call) (call_hints call) in
    req !! "center_ra" = None ∧ req !! "center_dec" = None ∧
    req !! "radius" = None ∧
    (req !! "scale_units" = None ∨ req !! "scale_units" = Some (JString "degwidth")).
Proof.
  intros Hget Hfailed Hprep.
  assert (call_hints call = ∅) as Hhints.
  { unfold _rescan_prepare in Hprep.
    repeat (case_bool_decide || case_match); simplify_eq; try done.
    simpl. unfold _rescan_hints. simpl. by rewrite Hfailed. }
  split; [done|]. intros session_key. rewrite Hhints.
  unfold request_json. destruct (contains _ _); simpl.
  - split_and!; [done..|]. by left.
  - split_and!; [done..|]. by right.
Qed.

End SubmissionClaims.

Lemma rescan_throttled_witness :
  @_rescan_logic accepting_solver local_settings (local_redis None) busy_db 10 20 9
    = (Retry 20, busy_db) ∧
  _rescan_prepare local_settings (local_redis None) busy_db 10 9
    = (inl (Retry 20), busy_db) ∧
  max_submissions (local_redis None)
    = default 8 (system_settings (local_redis None) ≫= astrometry_max_submissions).
Proof.
  apply (@rescan_throttled accepting_solver local_settings (local_redis None)
           busy_db 10 20 9); by vm_compute.
Defined.

Lemma failed_resubmission_is_blind_witness :
  ∃ call db',
    _rescan_prepare local_settings (local_redis None) failed_db 10 7
      = (inr call, db') ∧
    call_hints call = ∅ ∧
    ∀ session_key,
      let req := request_json session_key (call_base_url call) (call_hints call) in
      req !! "center_ra" = None ∧ req !! "center_dec" = None ∧
      req !! "radius" = None ∧
      (req !! "scale_units" = None ∨ req !! "scale_units" = Some (JString "degwidth")).
Proof.
  eexists _, _. split; [by vm_compute|].
  eapply (failed_resubmission_is_blind local_settings (local_redis None)
            failed_db 10 7 failed_image); by vm_compute.
Defined.

(** The same image with status NONE is submitted with its stored centre,
    radius and pixel scale as hints. *)
Example fresh_submission_is_hinted :
  ∃ call db',
    _rescan_prepare local_settings (local_redis None) fresh_db 10 7
      = (inr call, db') ∧
    call_hints call !! "center_ra" = Some (JNumber 10) ∧
    call_hints call !! "center_dec" = Some (JNumber 41) ∧
    call_hints call !! "radius" = Some (JNumber 1) ∧
    call_hints call !! "scale_units" = Some (JString "arcsecperpix") ∧
    session_get (images db') 7
      = Some (set_astrometry fresh_image "SUBMITTED" (Some "LOCAL") None 10).
Proof. eexists _, _. split; [by vm_compute|]. by vm_compute. Qed.

(** A FAILED image is admitted again and, once the solver accepts the
    upload, handed to the monitor in status PROCESSING. *)
Example failed_resubmission_runs :
  (@_rescan_logic accepting_solver local_settings (local_redis None)
     failed_db 10 20 7).1 = Monitoring "4242" ∧
  Image.astrometry_status <$>
    session_get
      (images (@_rescan_logic accepting_solver local_settings (local_redis None)
                 failed_db 10 20 7).2) 7
  = Some "PROCESSING".
Proof. by vm_compute. Qed.

(** ** Further properties of the catalog matcher *)

Section MatcherMore.
Context `{Libm, Astropy, PostGIS}.

Lemma added_length db wcs image i cs : ∀ st,
  (length (added (foldl (visit_candidate db wcs image i) st cs))
   ≤ length (added st) + length cs)%nat.
Proof.
  induction cs as [|c cs IH]; intros st; simpl; [lia|].
  specialize (IH (visit_candidate db wcs image i st c)).
  assert (length (added (visit_candidate db wcs image i st c))
          ≤ S (length (added st)))%nat; [|lia].
  unfold visit_candidate, visit.
  repeat case_match; simpl; rewrite ?length_app; simpl; lia.
Qed.

Lemma omap_length_le {A B} (f : A → option B) (l : list A) :
  (length (omap f l) ≤ length l)%nat.
Proof.
  unfold omap. induction l as [|x l IH]; simpl; [done|].
  destruct (f x); simpl; lia.
Qed.

Lemma select_in_field_length tbl ra dec radius_meters :
  (length (select_in_field tbl ra dec radius_meters) ≤ length tbl)%nat.
Proof. apply omap_length_le. Qed.

Lemma field_candidates_length db image ra dec :
  (length (field_candidates db image ra dec)
   ≤ length (messier_catalog db) + 100)%nat.
Proof.
  unfold field_candidates, candidates, all_matches_of.
  cbn [mbind list_bind]. rewrite app_nil_r, !length_app, !length_fmap.
  unfold _find_messier_in_field, _find_ngc_in_field, _find_named_stars_in_field.
  rewrite !length_take.
  pose proof (select_in_field_length (messier_catalog db) ra dec
                (search_radius image * float_of_Z 111320)%float).
  lia.
Qed.

(** The keys the loop writes are those of the candidates that pass the
    validation. *)
Lemma loop_result_length db image i ra dec :
  (length (added (loop_result db image i ra dec))
   ≤ length (field_candidates db image ra dec))%nat.
Proof.
  unfold loop_result. rewrite validate_all_flat.
  exact (added_length db (_construct_wcs image) image i
           (field_candidates db image ra dec)
           {| seen_keys := ∅; added := []; count := 0 |}).
Qed.

(** X1: the count [match_image] returns for a matched image is the number
    of AUTOMATIC rows it leaves for that image, and it is at most the size
    of the Messier catalog plus the two query limits of 50. *)
Theorem match_image_count db i n db' image ra dec :
  matchable db image i ra dec →
  match_image db i = (Ok n, db') →
  n = Z.of_nat (length (automatic_rows i db')) ∧
  (n ≤ Z.of_nat (length (messier_catalog db)) + 100)%Z.
Proof.
  intros Hm Hrun.
  destruct (automatic_rows_of_run _ _ _ _ _ _ _ Hm Hrun) as (Hrows & Hn & _).
  pose proof (loop_result_inv db image i ra dec) as Hinv.
  rewrite Hrows, Hn, (inv_count _ _ _ _ _ _ Hinv). split; [done|].
  pose proof (loop_result_length db image i ra dec) as Hlen.
  pose proof (field_candidates_length db image ra dec) as Hcand.
  lia.
Qed.

(** X2: for a matched image whose validated designations fit the
    20-character column of the match table, the run is refused by the
    unique key, raising [IntegrityError] and leaving every stored row (the
    old AUTOMATIC rows included) as it was, exactly when a stored row of the
    image that is not AUTOMATIC names an object that is a validated
    candidate; otherwise it succeeds. *)
Theorem match_image_integrity db i image ra dec :
  matchable db image i ra dec →
  (∀ c, c ∈ field_candidates db image ra dec →
     validated db (_construct_wcs image) image c.1 (row_designation c.2) = true →
     fits_designation (row_designation c.2)) →
  (match_image db i = (Raised IntegrityError, db) ↔
   ∃ m c, m ∈ image_catalog_matches db ∧ image_id m = i ∧
          match_source m ≠ Some "AUTOMATIC" ∧
          c ∈ field_candidates db image ra dec ∧
          candidate_key c = row_key m ∧
          validated db (_construct_wcs image) image c.1 (row_designation c.2) = true) ∧
  (match_image db i = (Raised IntegrityError, db) ∨
   ∃ n db', match_image db i = (Ok n, db')).
Proof.
  intros Hm _. rewrite (match_image_matchable _ _ _ _ _ Hm).
  pose proof (loop_result_inv db image i ra dec) as Hinv.
  pose proof (loop_result_automatic db image i ra dec) as Hauto.
  pose proof (insert_all_accepts (added (loop_result db image i ra dec))
                (delete_automatic i (image_catalog_matches db))) as Haccept.
  assert (NoDup (match_key <$> added (loop_result db image i ra dec))) as Hnd.
  { apply (NoDup_fmap_1 (λ k : Z * CatalogType * string, (k.1.2, k.2))).
    rewrite <- list_fmap_compose. apply (inv_nodup _ _ _ _ _ _ Hinv). }
  destruct (insert_all _ _) as [tbl|e] eqn:Hins.
  - split; [|right; by eexists _, _]. split; [done|].
    intros (m & c & Hin & Hid & Hsrc & Hc & Hkey & Hvalid). exfalso.
    destruct (proj1 Haccept) as [_ Hfresh]; [by eexists|].
    assert (row_key m ∈ row_key <$> added (loop_result db image i ra dec))
      as (m' & Hkey' & Hm')%list_elem_of_fmap.
    { apply added_keys. by exists c. }
    apply (Hfresh m' Hm'). apply list_elem_of_fmap. exists m. split.
    + rewrite Forall_forall in Hauto. destruct (Hauto m' Hm') as [Hid' _].
      unfold match_key. unfold row_key in Hkey'. congruence.
    + apply list_elem_of_filter. split; [|done]. intros [_ ?]. done.
  - apply insert_all_raised in Hins as Hexn. subst e.
    split; [|by left]. split; [|done]. intros _.
    destruct (insert_all_clash _ _ _ Hnd Hins) as (m' & Hm' & Hstored).
    apply list_elem_of_fmap in Hstored as (m & Hkey & [Hkeep Hin]%list_elem_of_filter).
    rewrite Forall_forall in Hauto. destruct (Hauto m' Hm') as [Hid' _].
    assert (image_id m = i) as Hid by (unfold match_key in Hkey; congruence).
    assert (row_key m ∈ row_key <$> added (loop_result db image i ra dec)) as Hrow.
    { apply list_elem_of_fmap. exists m'. split; [|done].
      unfold match_key in Hkey. unfold row_key. congruence. }
    apply added_keys in Hrow as (c & Hc & Hck & Hvalid).
    exists m, c. split_and!; try done.
    intros Hsrc. by apply Hkeep.
Qed.

Lemma scalar_one_some {A} (rows : list A) x :
  scalar_one_or_none rows = Ok (Some x) → rows = [x].
Proof. destruct rows as [|y [|z rows]]; simpl; congruence. Qed.

Lemma filter_singleton_inv {A} (P : A → Prop) `{∀ x, Decision (P x)} l x :
  filter P l = [x] → x ∈ l ∧ P x ∧ ∀ y, y ∈ l → P y → y = x.
Proof.
  intros Hfilter.
  assert (x ∈ filter P l) as [HP Hin]%list_elem_of_filter
    by (rewrite Hfilter; apply list_elem_of_here).
  split_and!; [done..|]. intros y Hy HPy.
  assert (y ∈ filter P l) as Hy' by (by apply list_elem_of_filter).
  rewrite Hfilter in Hy'. by apply list_elem_of_singleton in Hy'.
Qed.

(** X3: coordinates returned by [_get_catalog_coords] are those of a row of
    the catalog the type is looked up in, and that row is the only one of
    its table whose designation equals the queried one, or, for a named
    star found by the second query, whose space-free designation equals the
    space-free queried one. *)
Theorem get_catalog_coords_sound db cat_type desig ra dec :
  _get_catalog_coords db cat_type desig = Some (ra, dec) →
  ∃ o, o ∈ catalog_table db cat_type ∧ coords o = (ra, dec) ∧
       ((designation o = desig ∧
         ∀ o', o' ∈ catalog_table db cat_type → designation o' = desig → o' = o) ∨
        (cat_type = NAMED_STAR ∧
         (∀ o', o' ∈ catalog_table db cat_type → designation o' ≠ desig) ∧
         remove_spaces (designation o) = remove_spaces desig ∧
         ∀ o', o' ∈ catalog_table db cat_type →
               remove_spaces (designation o') = remove_spaces desig → o' = o)).
Proof.
  unfold _get_catalog_coords, select_exact, select_normalized.
  destruct cat_type; simpl.
  1-3: destruct (scalar_one_or_none _) as [[o|]|] eqn:Hone; [|done..];
       intros Hc; assert (coords o = (ra, dec)) by congruence;
       apply scalar_one_some, filter_singleton_inv in Hone as (Hin & Hd & Huniq);
       exists o; split_and!; [done..|]; left; by split.
  destruct (scalar_one_or_none _) as [[o|]|] eqn:Hone; [| |done].
  - intros Hc. assert (coords o = (ra, dec)) by congruence.
    apply scalar_one_some, filter_singleton_inv in Hone as (Hin & Hd & Huniq).
    exists o. split_and!; [done..|]. left. by split.
  - destruct (filter (λ o, designation o = desig) (named_star_catalog db))
      as [|? [|? ?]] eqn:Hexact; [|done..].
    destruct (scalar_one_or_none (filter _ _)) as [[o|]|] eqn:Hnorm; [|done..].
    intros Hc. assert (coords o = (ra, dec)) by congruence.
    apply scalar_one_some, filter_singleton_inv in Hnorm as (Hin & Hd & Huniq).
    exists o. split_and!; [done..|]. right. split_and!; [done| |done..].
    intros o' Ho' Hd'. eapply filter_nil_not_elem_of; [exact Hexact| |exact Ho'].
    done.
Qed.

(** A candidate comes from the table of its catalog type, which is never
    IC, and lies within the search radius. *)
Lemma field_candidate_origin db image ra dec c :
  c ∈ field_candidates db image ra dec →
  c.1 ≠ IC ∧
  ∃ o loc,
    o ∈ catalog_table db c.1 ∧ location o = Some loc ∧
    ST_DWithin loc (ra, dec)
      (search_radius image * float_of_Z 111320)%float = true ∧
    c.2 = {| row_designation := designation o;
             dist := (ST_Distance loc (ra, dec) / 111320.0)%float |}.
Proof.
  unfold field_candidates, candidates, all_matches_of.
  cbn [mbind list_bind]. rewrite app_nil_r, !elem_of_app, !list_elem_of_fmap.
  unfold _find_messier_in_field, _find_ngc_in_field, _find_named_stars_in_field.
  intros [(row & -> & Hrow)|[(row & -> & Hrow)|(row & -> & Hrow)]]; simpl;
    (split; [done|]);
    try apply subseteq_take in Hrow;
    apply select_in_field_elem in Hrow as (o & loc & Hin & Hloc & Hw & ->);
    by exists o, loc.
Qed.

(** X4: every row a successful run writes for a matched image names, under
    its own catalog type (MESSIER, NGC or NAMED_STAR, never IC), a stored
    catalog object that PostGIS places within the search radius of the
    centre, and carries that object's distance as its separation. *)
Theorem match_image_rows_sound db i n db' image ra dec m :
  matchable db image i ra dec →
  match_image db i = (Ok n, db') →
  m ∈ automatic_rows i db' →
  catalog_type m ≠ IC ∧ is_in_field m = Some true ∧
  ∃ o loc,
    o ∈ catalog_table db (catalog_type m) ∧
    designation o = catalog_designation m ∧
    location o = Some loc ∧
    ST_DWithin loc (ra, dec)
      (search_radius image * float_of_Z 111320)%float = true ∧
    angular_separation_degrees m
      = Some (ST_Distance loc (ra, dec) / 111320.0)%float.
Proof.
  intros Hm Hrun Hin.
  destruct (automatic_rows_of_run _ _ _ _ _ _ _ Hm Hrun) as (Hrows & _ & _).
  rewrite Hrows in Hin.
  destruct (inv_first _ _ _ _ _ _ (loop_result_inv db image i ra dec) m Hin)
    as (pre & c & post & Hsplit & -> & _).
  destruct (field_candidate_origin db image ra dec c)
    as (Htype & o & loc & Ho & Hloc & Hw & Hc).
  { rewrite Hsplit, elem_of_app. right. apply list_elem_of_here. }
  simpl. split_and!; [done..|]. exists o, loc. rewrite Hc. simpl. by split_and!.
Qed.

(** X5: when the stored header carries an [astrometry_parity] that is
    not a number (a JSON null, a string), no WCS is built and a successful
    run accepts every candidate of the radius queries without pixel
    validation. *)
Theorem match_image_without_parity db i n db' image ra dec hdr v c :
  matchable db image i ra dec →
  Image.raw_header image = Some hdr →
  hdr !! "astrometry_parity" = Some v →
  parity_factor v = None →
  match_image db i = (Ok n, db') →
  c ∈ field_candidates db image ra dec →
  _construct_wcs image = None ∧ accepted i db' c.
Proof.
  intros Hm Hhdr Hv Hparity Hrun Hc.
  assert (_construct_wcs image = None) as Hwcs.
  { unfold _construct_wcs, header_parity. rewrite Hhdr, Hv, Hparity.
    by repeat case_match. }
  split; [done|].
  destruct (automatic_rows_of_run _ _ _ _ _ _ _ Hm Hrun) as (Hrows & _ & _).
  pose proof (loop_result_inv db image i ra dec) as Hinv.
  unfold accepted. rewrite Hrows.
  destruct (inv_cover _ _ _ _ _ _ Hinv c Hc) as [Hseen|Hval].
  - apply (inv_seen _ _ _ _ _ _ Hinv), list_elem_of_fmap in Hseen
      as (m & Hkey & Hin).
    by exists m.
  - by rewrite Hwcs in Hval.
Qed.

End MatcherMore.

Lemma match_image_count_witness :
  3 = Z.of_nat (length (automatic_rows 1 (scenario_match m31_db 1).2)) ∧
  (3 ≤ Z.of_nat (length (messier_catalog m31_db)) + 100)%Z.
Proof.
  apply (@match_image_count libm_unrotated linear_astropy meridian_postgis
           m31_db 1 3 _ m31_image 10 41); by vm_compute.
Defined.

Lemma match_image_integrity_witness :
  (scenario_match pinned_db 1 = (Raised IntegrityError, pinned_db) ↔
   ∃ m c, m ∈ image_catalog_matches pinned_db ∧ image_id m = 1 ∧
          match_source m ≠ Some "AUTOMATIC" ∧
          c ∈ @field_candidates meridian_postgis pinned_db m31_image 10 41 ∧
          candidate_key c = row_key m ∧
          @validated linear_astropy pinned_db
            (@_construct_wcs libm_unrotated linear_astropy m31_image) m31_image
            c.1 (row_designation c.2) = true) ∧
  (scenario_match pinned_db 1 = (Raised IntegrityError, pinned_db) ∨
   ∃ n db', scenario_match pinned_db 1 = (Ok n, db')).
Proof.
  apply (@match_image_integrity libm_unrotated linear_astropy meridian_postgis
           pinned_db 1 m31_image 10 41).
  - by vm_compute.
  - assert (Forall (λ c, fits_designation (row_designation c.2))
              (@field_candidates meridian_postgis pinned_db m31_image 10 41))
      as Hfit.
    { unfold fits_designation. apply (bool_decide_unpack _). vm_compute. exact I. }
    rewrite Forall_forall in Hfit. intros c Hc _. by apply Hfit.
Defined.

(** The pinned object blocks the run. *)
Example pinned_scenario :
  scenario_match pinned_db 1 = (Raised IntegrityError, pinned_db).
Proof. by vm_compute. Qed.

Lemma get_catalog_coords_sound_witness :
  ∃ o, o ∈ catalog_table (star_db [alpha_cen; hr_spaced]) NAMED_STAR ∧
       coords o = (219.875%float, (-60.75)%float) ∧
       ((designation o = "HR5459" ∧
         ∀ o', o' ∈ catalog_table (star_db [alpha_cen; hr_spaced]) NAMED_STAR →
               designation o' = "HR5459" → o' = o) ∨
        (NAMED_STAR = NAMED_STAR ∧
         (∀ o', o' ∈ catalog_table (star_db [alpha_cen; hr_spaced]) NAMED_STAR →
                designation o' ≠ "HR5459") ∧
         remove_spaces (designation o) = remove_spaces "HR5459" ∧
         ∀ o', o' ∈ catalog_table (star_db [alpha_cen; hr_spaced]) NAMED_STAR →
               remove_spaces (designation o') = remove_spaces "HR5459" → o' = o)).
Proof.
  apply (get_catalog_coords_sound (star_db [alpha_cen; hr_spaced]) NAMED_STAR
           "HR5459"). by vm_compute.
Defined.

Lemma match_image_rows_sound_witness :
  catalog_type (@new_match 1 NGC {| row_designation := "NGC206"; dist := 0.25 |}) ≠ IC ∧
  is_in_field (@new_match 1 NGC {| row_designation := "NGC206"; dist := 0.25 |})
    = Some true ∧
  ∃ o loc,
    o ∈ catalog_table m31_db NGC ∧
    designation o = "NGC206" ∧
    location o = Some loc ∧
    @ST_DWithin meridian_postgis loc (10%float, 41%float)
      (search_radius m31_image * float_of_Z 111320)%float = true ∧
    Some 0.25%float
      = Some (@ST_Distance meridian_postgis loc (10%float, 41%float) / 111320.0)%float.
Proof.
  apply (@match_image_rows_sound libm_unrotated linear_astropy meridian_postgis
           m31_db 1 3 (scenario_match m31_db 1).2 m31_image 10 41
           (@new_match 1 NGC {| row_designation := "NGC206"; dist := 0.25 |}));
    [by vm_compute|by vm_compute|computed_elem].
Defined.

Lemma match_image_without_parity_witness :
  @_construct_wcs libm_unrotated linear_astropy null_parity_image = None ∧
  accepted 1 (scenario_match null_parity_db 1).2
    (MESSIER, {| row_designation := "M32"; dist := 0.5 |}).
Proof.
  apply (@match_image_without_parity libm_unrotated linear_astropy
           meridian_postgis null_parity_db 1 4 (scenario_match null_parity_db 1).2
           null_parity_image 10 41 {["astrometry_parity" := JNull]} JNull);
    [by vm_compute|done|done|done|by vm_compute|computed_elem].
Defined.

(** ** Further properties of the submission *)

Section UpdateFacts.
Variable f : Image.t → Image.t.
Hypothesis f_id : ∀ img, Image.id (f img) = Image.id img.

Lemma session_get_update imgs i :
  session_get (update_image imgs i f) i = f <$> session_get imgs i.
Proof.
  unfold update_image. induction imgs as [|a imgs IH]; [done|].
  rewrite fmap_cons. cbn [session_get].
  destruct (bool_decide (Image.id a = i)) eqn:Heq.
  - rewrite f_id, Heq. done.
  - rewrite Heq. exact IH.
Qed.

Lemma session_get_update_ne imgs i j :
  j ≠ i → session_get (update_image imgs i f) j = session_get imgs j.
Proof.
  intros Hne. unfold update_image. induction imgs as [|a imgs IH]; [done|].
  rewrite fmap_cons. cbn [session_get].
  destruct (bool_decide (Image.id a = i)) eqn:Heq; [|by rewrite IH].
  apply bool_decide_eq_true in Heq. rewrite f_id.
  rewrite !bool_decide_eq_false_2 by congruence. exact IH.
Qed.

Lemma update_image_absent imgs i :
  i ∉ Image.id <$> imgs → update_image imgs i f = imgs.
Proof.
  intros Hout. unfold update_image.
  rewrite <- (list_fmap_id imgs) at 2. apply list_fmap_ext.
  intros _ img Hin%list_elem_of_lookup_2. simpl.
  rewrite bool_decide_eq_false_2; [done|].
  intros <-. apply Hout. by apply list_elem_of_fmap_2.
Qed.

(** Rewriting one row changes the number of rows in flight by that row
    alone. *)
Lemma in_flight_update imgs i img :
  NoDup (Image.id <$> imgs) →
  session_get imgs i = Some img →
  (length (filter (λ x, in_flight x = true) (update_image imgs i f))
   + (if in_flight img then 1 else 0)
   = length (filter (λ x, in_flight x = true) imgs)
     + (if in_flight (f img) then 1 else 0))%nat.
Proof.
  induction imgs as [|a imgs IH]; [done|].
  rewrite fmap_cons, NoDup_cons. intros [Ha Hnd]. cbn [session_get].
  destruct (bool_decide (Image.id a = i)) eqn:Heq.
  - intros [= ->]. apply bool_decide_eq_true in Heq. subst i.
    unfold update_image. rewrite fmap_cons, bool_decide_eq_true_2 by done.
    fold (update_image imgs (Image.id img) f).
    rewrite update_image_absent by done.
    rewrite !filter_cons.
    destruct (in_flight img), (in_flight (f img));
      repeat (destruct (decide _)); try done; simpl; lia.
  - intros Hget. specialize (IH Hnd Hget).
    assert (update_image (a :: imgs) i f = a :: update_image imgs i f) as ->.
    { unfold update_image. by rewrite fmap_cons, Heq. }
    rewrite !filter_cons.
    destruct (decide (in_flight a = true)); simpl; lia.
Qed.

End UpdateFacts.

Lemma set_astrometry_id img status solver submission now :
  Image.id (set_astrometry img status solver submission now) = Image.id img.
Proof. done. Qed.

(** What an admitted attempt has checked and written. *)
Lemma rescan_prepare_admitted settings redis db now i call db' :
  _rescan_prepare settings redis db now i = (inr call, db') →
  ∃ image,
    session_get (images db) i = Some image ∧
    api_key (resolve_endpoint settings redis) ≠ "" ∧
    reachable redis = true ∧ lock_acquired redis = true ∧
    (active_count db < max_submissions redis)%Z ∧
    (Image.astrometry_status image ∉ ["SUBMITTED"; "PROCESSING"; "SOLVED"]) ∧
    call = {| call_file_path := Image.file_path image;
              call_api_key := api_key (resolve_endpoint settings redis);
              call_base_url := base_url (resolve_endpoint settings redis);
              call_hints := _rescan_hints (Image.astrometry_status image) image |} ∧
    db' = with_images db
            (update_image (images db) i
               (λ img, set_astrometry img "SUBMITTED"
                         (Some (upper (provider (resolve_endpoint settings redis))))
                         (Image.astrometry_submission_id img) now)).
Proof.
  unfold _rescan_prepare.
  case_bool_decide as Hkey; [done|].
  destruct (reachable redis) eqn:Hup; [|done].
  destruct (lock_acquired redis) eqn:Hlock; [|done]. simpl.
  case_bool_decide as Hfull; [done|].
  destruct (session_get (images db) i) as [image|] eqn:Hget; [|done].
  case_bool_decide as Hstatus; [done|].
  intros [= <- <-]. exists image. split_and!; try done. lia.
Qed.

Lemma rescan_prepare_denied settings redis db now i outcome db' :
  _rescan_prepare settings redis db now i = (inl outcome, db') → db' = db.
Proof.
  unfold _rescan_prepare. repeat case_match; by intros [= <- <-].
Qed.

Section SubmissionMore.
Context `{SolverIO}.

(** X6: an attempt that ends before the upload, for whatever reason (no
    API key, Redis down, lock not acquired, ceiling reached, image missing
    or already started), leaves the database exactly as it was, and
    [_rescan_logic] ends with that outcome without calling the solver. *)
Theorem rescan_denied_is_noop settings redis db now now' i outcome db' :
  _rescan_prepare settings redis db now i = (inl outcome, db') →
  db' = db ∧
  _rescan_logic settings redis db now now' i = (outcome, db) ∧
  (outcome = Returned "error" (Some "API key missing") ∨
   outcome = Failed ConnectionError ∨
   outcome = Retry 5 ∨ outcome = Retry 20 ∨
   outcome = Returned "error" (Some "Image not found") ∨
   outcome = Returned "already_started" None).
Proof.
  intros Hprep. pose proof (rescan_prepare_denied _ _ _ _ _ _ _ Hprep) as ->.
  split_and!; [done| |].
  - unfold _rescan_logic. by rewrite Hprep.
  - unfold _rescan_prepare in Hprep.
    repeat case_match; simplify_eq; tauto.
Qed.

(** X7: for an image whose status is SUBMITTED, PROCESSING or SOLVED the
    task never uploads and never writes: whatever the settings and the
    state of Redis, it ends before the upload with the database unchanged,
    and once past the admission checks it answers "already_started". *)
Theorem rescan_started_is_noop settings redis db now now' i image :
  session_get (images db) i = Some image →
  Image.astrometry_status image ∈ ["SUBMITTED"; "PROCESSING"; "SOLVED"] →
  ∃ outcome,
    _rescan_prepare settings redis db now i = (inl outcome, db) ∧
    _rescan_logic settings redis db now now' i = (outcome, db) ∧
    (api_key (resolve_endpoint settings redis) ≠ "" →
     reachable redis = true → lock_acquired redis = true →
     (active_count db < max_submissions redis)%Z →
     outcome = Returned "already_started" None).
Proof.
  intros Hget Hstatus.
  destruct (_rescan_prepare settings redis db now i) as [[outcome|call] db'] eqn:Hprep.
  - pose proof (rescan_prepare_denied _ _ _ _ _ _ _ Hprep) as ->.
    exists outcome. split_and!; [done| |].
    + unfold _rescan_logic. by rewrite Hprep.
    + intros Hkey Hup Hlock Hroom. unfold _rescan_prepare in Hprep.
      rewrite bool_decide_eq_false_2, Hup, Hlock in Hprep by done. simpl in Hprep.
      rewrite bool_decide_eq_false_2, Hget in Hprep by lia.
      rewrite bool_decide_eq_true_2 in Hprep by done. by simplify_eq.
  - apply rescan_prepare_admitted in Hprep as (image' & Hget' & _ & _ & _ & _ & Hnot & _).
    by simplify_eq.
Qed.

(** X8: an admitted attempt puts exactly one more image in flight, the
    image itself, now SUBMITTED, and the number in flight afterwards does
    not exceed the ceiling; the other images read back as before. *)
Theorem admission_respects_ceiling settings redis db now i call db' :
  NoDup (Image.id <$> images db) →
  _rescan_prepare settings redis db now i = (inr call, db') →
  active_count db' = active_count db + 1 ∧
  (active_count db' ≤ max_submissions redis)%Z ∧
  Image.astrometry_status <$> session_get (images db') i = Some "SUBMITTED" ∧
  ∀ j, j ≠ i → session_get (images db') j = session_get (images db) j.
Proof.
  intros Hnd (image & Hget & _ & _ & _ & Hroom & Hnot & _ & ->)%rescan_prepare_admitted.
  set (submitted := λ img : Image.t,
         set_astrometry img "SUBMITTED"
           (Some (upper (provider (resolve_endpoint settings redis))))
           (Image.astrometry_submission_id img) now).
  assert (∀ img, Image.id (submitted img) = Image.id img) as Hid by done.
  assert (active_count (with_images db (update_image (images db) i submitted))
          = active_count db + 1) as Hcount.
  { unfold active_count. simpl.
    pose proof (in_flight_update submitted (images db) i image Hnd Hget) as Hlen.
    assert (in_flight image = false) as Hidle.
    { unfold in_flight. apply bool_decide_eq_false. intros Hin. apply Hnot.
      apply elem_of_cons in Hin as [->|Hin]; [apply list_elem_of_here|].
      apply list_elem_of_further. apply list_elem_of_singleton in Hin as ->.
      apply list_elem_of_here. }
    rewrite Hidle in Hlen. simpl in Hlen. lia. }
  split_and!; [done|lia| |].
  - simpl. rewrite session_get_update, Hget by done. done.
  - intros j Hne. simpl. by rewrite session_get_update_ne.
Qed.

End SubmissionMore.

Lemma request_json_remote session_key url hints :
  contains "nova.astrometry.net" url = true →
  request_json session_key url hints = base_request session_key.
Proof. intros Hnova. unfold request_json. by rewrite Hnova. Qed.

Lemma request_json_local session_key url hints key v :
  contains "nova.astrometry.net" url = false →
  hints !! key = Some v →
  request_json session_key url hints !! key = Some v.
Proof.
  intros Hlocal Hkey. unfold request_json. rewrite Hlocal. simpl.
  rewrite bool_decide_eq_false_2.
  - by apply lookup_union_Some_l.
  - intros ->. by rewrite lookup_empty in Hkey.
Qed.

Section SubmissionRequests.
Context `{SolverIO}.

(** X9: unless the settings document names the provider "local", every
    admitted upload goes to the nova URL and its request holds the four
    base entries only: no position and no scale, whatever the image
    stores. *)
Theorem remote_submission_is_blind settings redis db now i call db' session_key :
  read_setting redis astrometry_provider "nova" ≠ "local" →
  _rescan_prepare settings redis db now i = (inr call, db') →
  call_base_url call = NOVA_API_URL ∧
  request_json session_key (call_base_url call) (call_hints call)
    = base_request session_key.
Proof.
  intros Hremote (image & _ & _ & _ & _ & _ & _ & -> & _)%rescan_prepare_admitted.
  assert (base_url (resolve_endpoint settings redis) = NOVA_API_URL) as Hurl.
  { unfold resolve_endpoint. by rewrite bool_decide_eq_false_2. }
  simpl. rewrite Hurl. split; [done|]. by apply request_json_remote.
Qed.

(** X10: an image that stores a pixel scale and was not FAILED is uploaded
    to a non-nova URL with that scale, within ten per cent either way, in
    arcseconds per pixel, in place of the default range; the session entry
    is kept. *)
Theorem local_submission_sends_scale settings redis db now i call db' image scale
    session_key :
  _rescan_prepare settings redis db now i = (inr call, db') →
  session_get (images db) i = Some image →
  Image.astrometry_status image ≠ "FAILED" →
  Image.pixel_scale_arcsec image = Some scale →
  contains "nova.astrometry.net" (call_base_url call) = false →
  request_json session_key (call_base_url call) (call_hints call) !! "scale_units"
    = Some (JString "arcsecperpix") ∧
  request_json session_key (call_base_url call) (call_hints call) !! "scale_lower"
    = Some (JNumber (scale * 0x1.ccccccccccccdp-1)%float) ∧
  request_json session_key (call_base_url call) (call_hints call) !! "scale_upper"
    = Some (JNumber (scale * 0x1.199999999999ap+0)%float) ∧
  request_json session_key (call_base_url call) (call_hints call) !! "session"
    = Some (JString session_key).
Proof.
  intros (image' & Hget' & _ & _ & _ & _ & _ & -> & _)%rescan_prepare_admitted
         Hget Hstatus Hscale Hlocal.
  rewrite Hget in Hget'. injection Hget' as <-. simpl in *.
  assert (∀ key v,
            _rescan_hints (Image.astrometry_status image) image !! key = Some v →
            request_json session_key (base_url (resolve_endpoint settings redis))
              (_rescan_hints (Image.astrometry_status image) image) !! key = Some v)
    as Hwin by (intros; by apply request_json_local).
  assert (_rescan_hints (Image.astrometry_status image) image !! "session" = None)
    as Hsession.
  { unfold _rescan_hints. rewrite bool_decide_eq_false_2, Hscale by done.
    repeat case_match; by simplify_map_eq. }
  split_and!.
  - apply Hwin. unfold _rescan_hints.
    rewrite bool_decide_eq_false_2, Hscale by done. by simplify_map_eq.
  - apply Hwin. unfold _rescan_hints.
    rewrite bool_decide_eq_false_2, Hscale by done. by simplify_map_eq.
  - apply Hwin. unfold _rescan_hints.
    rewrite bool_decide_eq_false_2, Hscale by done. by simplify_map_eq.
  - unfold request_json. rewrite Hlocal. simpl.
    case_bool_decide; [by simplify_map_eq|].
    rewrite lookup_union_r by done. by simplify_map_eq.
Qed.


End SubmissionRequests.

Lemma rescan_denied_is_noop_witness :
  busy_db = busy_db ∧
  @_rescan_logic accepting_solver local_settings (local_redis None) busy_db 10 20 9
    = (Retry 20, busy_db) ∧
  (Retry 20 = Returned "error" (Some "API key missing") ∨
   Retry 20 = Failed ConnectionError ∨
   Retry 20 = Retry 5 ∨ Retry 20 = Retry 20 ∨
   Retry 20 = Returned "error" (Some "Image not found") ∨
   Retry 20 = Returned "already_started" None).
Proof.
  apply (@rescan_denied_is_noop accepting_solver local_settings (local_redis None)
           busy_db 10 20 9 (Retry 20) busy_db).
  by vm_compute.
Defined.

Lemma rescan_started_is_noop_witness :
  ∃ outcome,
    _rescan_prepare local_settings (local_redis (Some 20)) busy_db 10 1
      = (inl outcome, busy_db) ∧
    @_rescan_logic accepting_solver local_settings (local_redis (Some 20)) busy_db 10 20 1
      = (outcome, busy_db) ∧
    (api_key (resolve_endpoint local_settings (local_redis (Some 20))) ≠ "" →
     reachable (local_redis (Some 20)) = true →
     lock_acquired (local_redis (Some 20)) = true →
     (active_count busy_db < max_submissions (local_redis (Some 20)))%Z →
     outcome = Returned "already_started" None).
Proof.
  apply (@rescan_started_is_noop accepting_solver local_settings
           (local_redis (Some 20)) busy_db 10 20 1
           (scenario_image 1 false "SUBMITTED" None None None None (Some 0))).
  - by vm_compute.
  - apply list_elem_of_here.
Defined.

Lemma admission_respects_ceiling_witness :
  active_count (_rescan_prepare local_settings (local_redis None) fresh_db 10 7).2
    = active_count fresh_db + 1 ∧
  (active_count (_rescan_prepare local_settings (local_redis None) fresh_db 10 7).2
   ≤ max_submissions (local_redis None))%Z ∧
  Image.astrometry_status <$>
    session_get
      (images (_rescan_prepare local_settings (local_redis None) fresh_db 10 7).2) 7
    = Some "SUBMITTED" ∧
  ∀ j, j ≠ 7 →
    session_get
      (images (_rescan_prepare local_settings (local_redis None) fresh_db 10 7).2) j
    = session_get (images fresh_db) j.
Proof.
  eapply (admission_respects_ceiling local_settings (local_redis None) fresh_db 10 7).
  - apply (bool_decide_unpack _). exact I.
  - by vm_compute.
Defined.

Lemma remote_submission_is_blind_witness :
  ∃ call db',
    _rescan_prepare remote_settings remote_redis fresh_db 10 7 = (inr call, db') ∧
    call_base_url call = NOVA_API_URL ∧
    request_json "session" (call_base_url call) (call_hints call)
      = base_request "session".
Proof.
  eexists _, _. split; [by vm_compute|].
  eapply (remote_submission_is_blind remote_settings remote_redis fresh_db 10 7).
  - by vm_compute.
  - by vm_compute.
Defined.

Lemma local_submission_sends_scale_witness :
  ∃ call db',
    _rescan_prepare local_settings (local_redis None) fresh_db 10 7 = (inr call, db') ∧
    request_json "session" (call_base_url call) (call_hints call) !! "scale_units"
      = Some (JString "arcsecperpix") ∧
    request_json "session" (call_base_url call) (call_hints call) !! "scale_lower"
      = Some (JNumber (2 * 0x1.ccccccccccccdp-1)%float) ∧
    request_json "session" (call_base_url call) (call_hints call) !! "scale_upper"
      = Some (JNumber (2 * 0x1.199999999999ap+0)%float) ∧
    request_json "session" (call_base_url call) (call_hints call) !! "session"
      = Some (JString "session").
Proof.
  eexists _, _. split; [by vm_compute|].
  eapply (local_submission_sends_scale local_settings (local_redis None) fresh_db 10 7
            _ _ fresh_image 2%float "session").
  - by vm_compute.
  - by vm_compute.
  - by vm_compute.
  - by vm_compute.
  - by vm_compute.
Defined.


(** ** Further properties of the reaper *)

(** A row as the sweep leaves it. *)
Lemma swept_row_settled t t' commit_time img :
  is_stuck t img = true ∨ is_stuck t' img = false →
  is_stuck t'
    (if is_stuck t img then set_status "FAILED" commit_time img else img) = false.
Proof.
  intros Hcase. destruct (is_stuck t img) eqn:Hs.
  - done.
  - by destruct Hcase.
Qed.

Lemma is_stuck_mono t t' img :
  (t' ≤ t)%Z → is_stuck t img = false → is_stuck t' img = false.
Proof.
  intros Hle Hnot. destruct (is_stuck t' img) eqn:Hs; [|done].
  apply is_stuck_spec in Hs as [Hstatus (u & Hu & Hlt)].
  rewrite <- Hnot. symmetry. apply is_stuck_spec.
  split; [done|]. exists u. split; [done|lia].
Qed.

Lemma swept_ids t commit_time (imgs : list Image.t) :
  Image.id <$> ((λ img, if is_stuck t img
                        then set_status "FAILED" commit_time img else img) <$> imgs)
  = Image.id <$> imgs.
Proof.
  rewrite <- list_fmap_compose. apply list_fmap_ext.
  intros _ img _. simpl. by destruct (is_stuck t img).
Qed.

Lemma swept_in_flight t commit_time (imgs : list Image.t) :
  (length (filter (λ x, in_flight x = true)
             ((λ img, if is_stuck t img
                      then set_status "FAILED" commit_time img else img) <$> imgs))
   + length (filter (λ x, is_stuck t x = true) imgs)
   = length (filter (λ x, in_flight x = true) imgs))%nat.
Proof.
  induction imgs as [|a imgs IH]; [done|].
  rewrite fmap_cons. destruct (is_stuck t a) eqn:Hs.
  - assert (in_flight a = true) as Ha
      by (unfold is_stuck in Hs; by apply andb_true_iff in Hs as [? _]).
    rewrite (filter_cons_False _ (set_status _ _ a)) by done.
    rewrite !filter_cons_True by done. simpl. lia.
  - rewrite (filter_cons_False (λ x, is_stuck t x = true)) by congruence.
    destruct (in_flight a) eqn:Ha.
    + rewrite !filter_cons_True by done. simpl. lia.
    + rewrite !filter_cons_False by congruence. exact IH.
Qed.

(** X12: the number the sweep returns is the number of stale in-flight
    images, and the count that admission reads drops by exactly that number;
    catalogs and match rows are not touched. *)
Theorem cleanup_frees_slots db now commit_time :
  NoDup (Image.id <$> images db) →
  (cleanup_stuck_astrometry db now commit_time).1
    = Z.of_nat (length (filter (λ img, is_stuck (now - five_minutes) img = true)
                          (images db))) ∧
  active_count (cleanup_stuck_astrometry db now commit_time).2
    = active_count db - (cleanup_stuck_astrometry db now commit_time).1 ∧
  image_catalog_matches (cleanup_stuck_astrometry db now commit_time).2
    = image_catalog_matches db.
Proof.
  intros Hnd.
  assert ((cleanup_stuck_astrometry db now commit_time).1
          = Z.of_nat (length (filter (λ img, is_stuck (now - five_minutes) img = true)
                                (images db)))) as Hcount.
  { unfold cleanup_stuck_astrometry. by destruct (filter _ (images db)). }
  split_and!; [done| |].
  - rewrite Hcount. unfold active_count. rewrite cleanup_images by done.
    pose proof (swept_in_flight (now - five_minutes) commit_time (images db)). lia.
  - unfold cleanup_stuck_astrometry. by destruct (filter _ (images db)).
Qed.

(** X13: a sweep settles what it reaped.  A second sweep whose clock is
    not later finds nothing and returns 0 with the database unchanged; and
    whenever the next sweep runs, a row reaped by the first one is read
    back as the first one wrote it. *)
Theorem cleanup_is_settled db now commit_time now2 commit_time2 :
  NoDup (Image.id <$> images db) →
  ((now2 ≤ now)%Z →
   cleanup_stuck_astrometry (cleanup_stuck_astrometry db now commit_time).2
     now2 commit_time2
   = (0, (cleanup_stuck_astrometry db now commit_time).2)) ∧
  (∀ img, img ∈ images db → is_stuck (now - five_minutes) img = true →
     session_get
       (images (cleanup_stuck_astrometry
                  (cleanup_stuck_astrometry db now commit_time).2
                  now2 commit_time2).2) (Image.id img)
     = Some (set_status "FAILED" commit_time img)).
Proof.
  intros Hnd.
  pose proof (cleanup_images db now commit_time Hnd) as Hswept.
  assert (NoDup (Image.id <$> images (cleanup_stuck_astrometry db now commit_time).2))
    as Hnd1 by (by rewrite Hswept, swept_ids).
  split.
  - intros Hle. unfold cleanup_stuck_astrometry at 1.
    rewrite (filter_none _ (images _)); [done|].
    rewrite Hswept. apply Forall_fmap, Forall_forall. intros img _. simpl.
    rewrite swept_row_settled; [done|].
    destruct (is_stuck (now - five_minutes) img) eqn:Hs; [by left|right].
    apply (is_stuck_mono (now - five_minutes)); [lia|done].
  - intros img Hin Hs.
    rewrite cleanup_images, Hswept, <- list_fmap_compose by done.
    rewrite session_get_fmap; [|intros x; simpl; by repeat case_match|done..].
    simpl. by rewrite Hs.
Qed.

(** X14: an image that the reaper timed out is resubmitted without hints:
    whatever centre and scale it stores, the upload that follows a sweep
    carries an empty hint dictionary. *)
Theorem reaped_image_resubmits_blind settings redis db now commit_time later img
    call db' :
  NoDup (Image.id <$> images db) →
  img ∈ images db →
  is_stuck (now - five_minutes) img = true →
  _rescan_prepare settings redis (cleanup_stuck_astrometry db now commit_time).2
    later (Image.id img) = (inr call, db') →
  call_hints call = ∅ ∧
  ∀ session_key,
    request_json session_key (call_base_url call) (call_hints call) !! "center_ra"
    = None.
Proof.
  intros Hnd Hin Hs (image & Hget & _ & _ & _ & _ & _ & -> & _)%rescan_prepare_admitted.
  rewrite cleanup_images in Hget by done.
  rewrite session_get_fmap in Hget;
    [|intros x; by destruct (is_stuck _ x)|done..].
  rewrite Hs in Hget. injection Hget as <-. simpl.
  split; [done|]. intros session_key. unfold request_json, _rescan_hints. simpl.
  by destruct (negb _).
Qed.

Lemma cleanup_frees_slots_witness :
  (cleanup_stuck_astrometry reaper_db sweep_time (sweep_time + 1)).1
    = Z.of_nat (length (filter (λ img, is_stuck (sweep_time - five_minutes) img = true)
                          (images reaper_db))) ∧
  active_count (cleanup_stuck_astrometry reaper_db sweep_time (sweep_time + 1)).2
    = active_count reaper_db
      - (cleanup_stuck_astrometry reaper_db sweep_time (sweep_time + 1)).1 ∧
  image_catalog_matches (cleanup_stuck_astrometry reaper_db sweep_time (sweep_time + 1)).2
    = image_catalog_matches reaper_db.
Proof.
  apply (cleanup_frees_slots reaper_db sweep_time (sweep_time + 1)).
  apply (bool_decide_unpack _). exact I.
Defined.

Lemma cleanup_is_settled_witness :
  ((sweep_time ≤ sweep_time)%Z →
   cleanup_stuck_astrometry
     (cleanup_stuck_astrometry reaper_db sweep_time (sweep_time + 1)).2
     sweep_time (sweep_time + 2)
   = (0, (cleanup_stuck_astrometry reaper_db sweep_time (sweep_time + 1)).2)) ∧
  (∀ img, img ∈ images reaper_db → is_stuck (sweep_time - five_minutes) img = true →
     session_get
       (images (cleanup_stuck_astrometry
                  (cleanup_stuck_astrometry reaper_db sweep_time (sweep_time + 1)).2
                  sweep_time (sweep_time + 2)).2) (Image.id img)
     = Some (set_status "FAILED" (sweep_time + 1) img)).
Proof.
  apply (cleanup_is_settled reaper_db sweep_time (sweep_time + 1)
           sweep_time (sweep_time + 2)).
  apply (bool_decide_unpack _). exact I.
Defined.

Lemma reaped_image_resubmits_blind_witness :
  ∃ call db',
    _rescan_prepare local_settings (local_redis None)
      (cleanup_stuck_astrometry stalled_db sweep_time (sweep_time + 1)).2
      (sweep_time + 2) (Image.id stalled_image) = (inr call, db') ∧
    call_hints call = ∅ ∧
    ∀ session_key,
      request_json session_key (call_base_url call) (call_hints call) !! "center_ra"
      = None.
Proof.
  eexists _, _. split; [by vm_compute|].
  eapply (reaped_image_resubmits_blind local_settings (local_redis None) stalled_db
            sweep_time (sweep_time + 1) (sweep_time + 2) stalled_image).
  - apply (bool_decide_unpack _). exact I.
  - apply list_elem_of_here.
  - by vm_compute.
  - by vm_compute.
Defined.

(** ** Properties of the bulk submission *)

Lemma classify_step force q img :
  classify force q img =
    if eligible force img then
      if imported img then
        {| priority_queue := priority_queue q ++ [img];
           standard_queue := standard_queue q;
           skipped_count := skipped_count q |}
      else
        {| priority_queue := priority_queue q;
           standard_queue := standard_queue q ++ [img];
           skipped_count := skipped_count q |}
    else skip_one q.
Proof.
  unfold classify, eligible, imported.
  destruct (bool_decide (subtype img = PLANETARY)); [done|].
  destruct force, (Image.is_plate_solved (bulk_row img));
    repeat case_bool_decide; simpl; try done; exfalso;
    repeat match goal with
           | Hin : _ ∈ _ |- _ => rewrite !elem_of_cons, elem_of_nil in Hin
           | Hout : _ ∉ _ |- _ => rewrite !elem_of_cons, elem_of_nil in Hout
           end;
    intuition congruence.
Qed.

Lemma classify_foldl force (l : list BulkImage) : ∀ q,
  priority_queue (foldl (classify force) q l)
    = priority_queue q
      ++ filter (λ img, eligible force img && imported img = true) l ∧
  standard_queue (foldl (classify force) q l)
    = standard_queue q
      ++ filter (λ img, eligible force img && negb (imported img) = true) l ∧
  skipped_count (foldl (classify force) q l)
    = skipped_count q
      + Z.of_nat (length (filter (λ img, eligible force img = false) l)).
Proof.
  induction l as [|img l IH]; intros q.
  - cbn [foldl]. rewrite !filter_nil, !app_nil_r. simpl. by rewrite Z.add_0_r.
  - cbn [foldl]. destruct (IH (classify force q img)) as (Hp & Hs & Hk).
    rewrite Hp, Hs, Hk, classify_step. clear.
    destruct (eligible force img) eqn:He, (imported img) eqn:Hi; simpl.
    + rewrite filter_cons_True by (by rewrite He, Hi).
      rewrite !filter_cons_False by (by rewrite He, ?Hi).
      by rewrite <- app_assoc.
    + rewrite (filter_cons_True (λ img, _ && negb _ = true)) by (by rewrite He, Hi).
      rewrite !filter_cons_False by (by rewrite He, ?Hi).
      by rewrite <- app_assoc.
    + rewrite (filter_cons_True (λ img, eligible _ _ = false)) by done.
      rewrite !filter_cons_False by (by rewrite He).
      split_and!; [done..|]. simpl. lia.
    + rewrite (filter_cons_True (λ img, eligible _ _ = false)) by done.
      rewrite !filter_cons_False by (by rewrite He).
      split_and!; [done..|]. simpl. lia.
Qed.

Lemma delay_foldl (l : list BulkImage) : ∀ r,
  foldl (λ r img,
           {| delayed := delayed r ++ [Image.id (bulk_row img)];
              processed := processed r + 1;
              queued := queued r + 1;
              skipped := skipped r |}) r l
  = {| delayed := delayed r ++ ((λ img, Image.id (bulk_row img)) <$> l);
       processed := processed r + Z.of_nat (length l);
       queued := queued r + Z.of_nat (length l);
       skipped := skipped r |}.
Proof.
  induction l as [|img l IH]; intros r.
  - cbn [foldl]. destruct r. simpl. by rewrite app_nil_r, !Z.add_0_r.
  - cbn [foldl]. rewrite IH. simpl. rewrite <- app_assoc. f_equal; simpl; lia.
Qed.

Lemma eligible_partition force (l : list BulkImage) :
  (length (filter (λ img, eligible force img && imported img = true) l)
   + length (filter (λ img, eligible force img && negb (imported img) = true) l)
   + length (filter (λ img, eligible force img = false) l)
   = length l)%nat.
Proof.
  induction l as [|img l IH]; [done|].
  destruct (eligible force img) eqn:He, (imported img) eqn:Hi.
  - rewrite filter_cons_True by (by rewrite He, Hi).
    rewrite !filter_cons_False by (by rewrite He, ?Hi). simpl. lia.
  - rewrite (filter_cons_True (λ img, _ && negb _ = true)) by (by rewrite He, Hi).
    rewrite !filter_cons_False by (by rewrite He, ?Hi). simpl. lia.
  - rewrite (filter_cons_True (λ img, eligible _ _ = false)) by done.
    rewrite !filter_cons_False by (by rewrite He). simpl. lia.
  - rewrite (filter_cons_True (λ img, eligible _ _ = false)) by done.
    rewrite !filter_cons_False by (by rewrite He). simpl. lia.
Qed.

(** X15: a bulk run submits exactly the eligible images of its selection,
    each once: those with an imported solution first, the others after
    them, both in the order of the selection.  Without [force] an image is
    eligible when it is not PLANETARY and its status is none of SUBMITTED,
    PROCESSING and SOLVED; with [force], when it is not PLANETARY. *)
Theorem bulk_queue_order force selected :
  delayed (bulk_astrometry_queue force selected)
  = ((λ img, Image.id (bulk_row img)) <$>
       filter (λ img, eligible force img && imported img = true) selected)
    ++ ((λ img, Image.id (bulk_row img)) <$>
          filter (λ img, eligible force img && negb (imported img) = true) selected).
Proof.
  unfold bulk_astrometry_queue. rewrite delay_foldl. simpl.
  destruct (classify_foldl force selected
              {| priority_queue := []; standard_queue := []; skipped_count := 0 |})
    as (-> & -> & _).
  simpl. by rewrite fmap_app.
Qed.

(** X16: when a bulk run completes, [processed] is the size of the
    selection, [queued] the number of submissions made, [skipped] the
    number of images that were not eligible, and the last two add up to the
    first. *)
Theorem bulk_counters force selected :
  processed (bulk_astrometry_queue force selected) = Z.of_nat (length selected) ∧
  queued (bulk_astrometry_queue force selected)
    = Z.of_nat (length (delayed (bulk_astrometry_queue force selected))) ∧
  skipped (bulk_astrometry_queue force selected)
    = Z.of_nat (length (filter (λ img, eligible force img = false) selected)) ∧
  queued (bulk_astrometry_queue force selected)
    + skipped (bulk_astrometry_queue force selected)
    = processed (bulk_astrometry_queue force selected).
Proof.
  pose proof (eligible_partition force selected) as Hpart.
  unfold bulk_astrometry_queue. rewrite delay_foldl. simpl.
  destruct (classify_foldl force selected
              {| priority_queue := []; standard_queue := []; skipped_count := 0 |})
    as (-> & -> & ->).
  simpl. rewrite !length_app, !length_fmap, !length_app. lia.
Qed.

(** ** Properties of the system settings *)

(** X17: settings that [update_settings] accepts take effect: they are
    what [get_settings] then returns, the admission ceiling is the stored
    one, and the endpoint the tasks resolve is the local solver, with a
    non-empty key and URL, when the provider is "local", and the nova URL
    with the nova key otherwise. *)
Theorem accepted_settings_take_effect settings redis new_settings body redis' :
  update_settings settings redis new_settings = (HttpOk body, redis') →
  body = new_settings ∧
  get_settings redis' = HttpOk new_settings ∧
  max_submissions redis' = body_max_submissions new_settings ∧
  provider (resolve_endpoint settings redis') = body_provider new_settings ∧
  (body_provider new_settings = "local" →
   api_key (resolve_endpoint settings redis') = local_astrometry_api_key settings ∧
   base_url (resolve_endpoint settings redis') = local_astrometry_url settings ∧
   local_astrometry_api_key settings ≠ "" ∧ local_astrometry_url settings ≠ "") ∧
  (body_provider new_settings ≠ "local" →
   api_key (resolve_endpoint settings redis') = astrometry_api_key settings ∧
   base_url (resolve_endpoint settings redis') = NOVA_API_URL).
Proof.
  unfold update_settings.
  destruct (bool_decide (body_provider new_settings = "local")
            && (bool_decide (local_astrometry_url settings = "")
                || bool_decide (local_astrometry_api_key settings = ""))) eqn:Hcheck;
    [done|].
  destruct (reachable redis) eqn:Hup; [|done]. simpl.
  intros [= <- <-].
  unfold get_settings, max_submissions, resolve_endpoint, read_setting. simpl.
  rewrite ?Hup. simpl. destruct new_settings as [p n]. simpl in *.
  destruct (bool_decide (p = "local")) eqn:Hp.
  - apply bool_decide_eq_true in Hp as ->. simpl in Hcheck.
    apply orb_false_iff in Hcheck as [Hurl Hkey]. rewrite Hurl, Hkey. simpl.
    apply bool_decide_eq_false in Hurl, Hkey. by split_and!.
  - apply bool_decide_eq_false in Hp. by split_and!.
Qed.

Lemma accepted_settings_take_effect_witness :
  {| body_provider := "local"; body_max_submissions := 3 |}
    = {| body_provider := "local"; body_max_submissions := 3 |} ∧
  get_settings
    (update_settings local_settings remote_redis
       {| body_provider := "local"; body_max_submissions := 3 |}).2
    = HttpOk {| body_provider := "local"; body_max_submissions := 3 |} ∧
  max_submissions
    (update_settings local_settings remote_redis
       {| body_provider := "local"; body_max_submissions := 3 |}).2 = 3 ∧
  provider
    (resolve_endpoint local_settings
       (update_settings local_settings remote_redis
          {| body_provider := "local"; body_max_submissions := 3 |}).2) = "local" ∧
  ("local" = "local" →
   api_key
     (resolve_endpoint local_settings
        (update_settings local_settings remote_redis
           {| body_provider := "local"; body_max_submissions := 3 |}).2)
     = local_astrometry_api_key local_settings ∧
   base_url
     (resolve_endpoint local_settings
        (update_settings local_settings remote_redis
           {| body_provider := "local"; body_max_submissions := 3 |}).2)
     = local_astrometry_url local_settings ∧
   local_astrometry_api_key local_settings ≠ "" ∧
   local_astrometry_url local_settings ≠ "") ∧
  ("local" ≠ "local" →
   api_key
     (resolve_endpoint local_settings
        (update_settings local_settings remote_redis
           {| body_provider := "local"; body_max_submissions := 3 |}).2)
     = astrometry_api_key local_settings ∧
   base_url
     (resolve_endpoint local_settings
        (update_settings local_settings remote_redis
           {| body_provider := "local"; body_max_submissions := 3 |}).2)
     = NOVA_API_URL).
Proof.
  apply (accepted_settings_take_effect local_settings remote_redis
           {| body_provider := "local"; body_max_submissions := 3 |}).
  by vm_compute.
Defined.

(** ** Properties of the solve request *)

Lemma assign_astrometry_id status solver submission now img :
  Image.id (assign_astrometry status solver submission now img) = Image.id img.
Proof. unfold assign_astrometry. by case_bool_decide. Qed.

Lemma assign_astrometry_status status solver submission now img :
  Image.astrometry_status (assign_astrometry status solver submission now img)
  = status.
Proof. unfold assign_astrometry. case_bool_decide as Hsame; [|done]. by destruct Hsame. Qed.

Lemma assign_astrometry_submission status solver submission now img :
  Image.astrometry_submission_id (assign_astrometry status solver submission now img)
  = submission.
Proof.
  unfold assign_astrometry. case_bool_decide as Hsame; [|done].
  by destruct Hsame as (_ & _ & ?).
Qed.

Lemma rescan_hints_assigned previous status solver submission now img :
  _rescan_hints previous (assign_astrometry status solver submission now img)
  = _rescan_hints previous img.
Proof. unfold assign_astrometry. by case_bool_decide. Qed.

Section SolveRequestFacts.
Context `{SolverIO}.

(** X18: the solve request is not subject to admission.  Whenever the
    image exists and an API key is configured it calls the solver, whatever
    the number of images in flight, the lock or the status of the image;
    and the upload it makes is the one the task makes when the task is
    admitted. *)
Theorem rescan_image_is_unthrottled settings redis db now now' i image :
  session_get (images db) i = Some image →
  api_key (resolve_endpoint settings redis) ≠ "" →
  uploaded (rescan_image settings redis db now now' i).2
    = Some {| call_file_path := Image.file_path image;
              call_api_key := api_key (resolve_endpoint settings redis);
              call_base_url := base_url (resolve_endpoint settings redis);
              call_hints := _rescan_hints (Image.astrometry_status image) image |} ∧
  ∀ now0 call db',
    _rescan_prepare settings redis db now0 i = (inr call, db') →
    uploaded (rescan_image settings redis db now now' i).2 = Some call.
Proof.
  intros Hget Hkey.
  assert (uploaded (rescan_image settings redis db now now' i).2
          = Some {| call_file_path := Image.file_path image;
                    call_api_key := api_key (resolve_endpoint settings redis);
                    call_base_url := base_url (resolve_endpoint settings redis);
                    call_hints := _rescan_hints (Image.astrometry_status image) image |})
    as Hcall.
  { unfold rescan_image. rewrite Hget, bool_decide_eq_false_2 by done.
    rewrite rescan_hints_assigned.
    by destruct (upload_file _) as [[submission_id|]|e]. }
  split; [done|].
  intros now0 call db' (image' & Hget' & _ & _ & _ & _ & _ & -> & _)%rescan_prepare_admitted.
  rewrite Hget in Hget'. injection Hget' as <-. exact Hcall.
Qed.

(** X19: what the solve request leaves behind.  When the solver returns a
    submission id the response carries it, the image is SUBMITTED with
    that id stored, and the monitor is queued for it; otherwise the
    response is a 500, the image is FAILED and no monitor is queued.  No
    other image is touched. *)
Theorem rescan_image_settles settings redis db now now' i image :
  session_get (images db) i = Some image →
  api_key (resolve_endpoint settings redis) ≠ "" →
  ∃ call,
    uploaded (rescan_image settings redis db now now' i).2 = Some call ∧
    ((∃ submission_id,
        upload_file call = Ok (Some submission_id) ∧
        (rescan_image settings redis db now now' i).1.1 = HttpOk submission_id ∧
        monitor_delayed (rescan_image settings redis db now now' i).2
          = Some (submission_id, i) ∧
        Image.astrometry_status <$>
          session_get (images (rescan_image settings redis db now now' i).1.2) i
          = Some "SUBMITTED" ∧
        Image.astrometry_submission_id <$>
          session_get (images (rescan_image settings redis db now now' i).1.2) i
          = Some (Some submission_id)) ∨
     ((∀ submission_id, upload_file call ≠ Ok (Some submission_id)) ∧
      (rescan_image settings redis db now now' i).1.1 = HttpError 500 ∧
      monitor_delayed (rescan_image settings redis db now now' i).2 = None ∧
      Image.astrometry_status <$>
        session_get (images (rescan_image settings redis db now now' i).1.2) i
        = Some "FAILED")) ∧
    ∀ j, j ≠ i →
      session_get (images (rescan_image settings redis db now now' i).1.2) j
      = session_get (images db) j.
Proof.
  intros Hget Hkey. unfold rescan_image.
  rewrite Hget, bool_decide_eq_false_2 by done.
  set (call := {| call_file_path := Image.file_path image |}).
  set (submitted := λ img : Image.t, assign_astrometry "SUBMITTED" _ _ now img).
  exists call.
  assert (session_get (update_image (images db) i submitted) i
          = Some (submitted image)) as Hget1.
  { rewrite session_get_update, Hget; [done|].
    intros img. apply assign_astrometry_id. }
  destruct (upload_file call) as [[submission_id|]|e] eqn:Hup; simpl.
  - split_and!; [done| |].
    + left. exists submission_id.
      rewrite session_get_update, Hget1 by (intros; apply assign_astrometry_id).
      simpl. rewrite assign_astrometry_status, assign_astrometry_submission.
      split_and!; try done. unfold submitted. by rewrite assign_astrometry_status.
    + intros j Hne.
      by rewrite !session_get_update_ne by (done || intros; apply assign_astrometry_id).
  - split_and!; [done| |].
    + right.
      rewrite session_get_update, Hget1 by (intros; apply assign_astrometry_id).
      simpl. unfold assign_status. by rewrite assign_astrometry_status.
    + intros j Hne.
      by rewrite !session_get_update_ne by (done || intros; apply assign_astrometry_id).
  - split_and!; [done| |].
    + right.
      rewrite session_get_update, Hget1 by (intros; apply assign_astrometry_id).
      simpl. unfold assign_status. by rewrite assign_astrometry_status.
    + intros j Hne.
      by rewrite !session_get_update_ne by (done || intros; apply assign_astrometry_id).
Qed.

End SolveRequestFacts.

Lemma rescan_image_is_unthrottled_witness :
  uploaded
    (@rescan_image accepting_solver local_settings (local_redis None) busy_db 10 20 9).2
    = Some {| call_file_path :=
                Image.file_path
                  (scenario_image 9 false "NONE" None None None None (Some 0));
              call_api_key := api_key (resolve_endpoint local_settings (local_redis None));
              call_base_url := base_url (resolve_endpoint local_settings (local_redis None));
              call_hints :=
                _rescan_hints "NONE"
                  (scenario_image 9 false "NONE" None None None None (Some 0)) |} ∧
  ∀ now0 call db',
    _rescan_prepare local_settings (local_redis None) busy_db now0 9 = (inr call, db') →
    uploaded
      (@rescan_image accepting_solver local_settings (local_redis None) busy_db 10 20 9).2
    = Some call.
Proof.
  apply (@rescan_image_is_unthrottled accepting_solver local_settings
           (local_redis None) busy_db 10 20 9
           (scenario_image 9 false "NONE" None None None None (Some 0)));
    by vm_compute.
Defined.

Lemma rescan_image_settles_witness :
  ∃ call,
    uploaded
      (@rescan_image refusing_solver local_settings (local_redis None) fresh_db 10 20 7).2
      = Some call ∧
    ((∃ submission_id,
        @upload_file refusing_solver call = Ok (Some submission_id) ∧
        (@rescan_image refusing_solver local_settings (local_redis None)
           fresh_db 10 20 7).1.1 = HttpOk submission_id ∧
        monitor_delayed
          (@rescan_image refusing_solver local_settings (local_redis None)
             fresh_db 10 20 7).2 = Some (submission_id, 7) ∧
        Image.astrometry_status <$>
          session_get
            (images (@rescan_image refusing_solver local_settings (local_redis None)
                       fresh_db 10 20 7).1.2) 7
          = Some "SUBMITTED" ∧
        Image.astrometry_submission_id <$>
          session_get
            (images (@rescan_image refusing_solver local_settings (local_redis None)
                       fresh_db 10 20 7).1.2) 7
          = Some (Some submission_id)) ∨
     ((∀ submission_id, @upload_file refusing_solver call ≠ Ok (Some submission_id)) ∧
      (@rescan_image refusing_solver local_settings (local_redis None)
         fresh_db 10 20 7).1.1 = HttpError 500 ∧
      monitor_delayed
        (@rescan_image refusing_solver local_settings (local_redis None)
           fresh_db 10 20 7).2 = None ∧
      Image.astrometry_status <$>
        session_get
          (images (@rescan_image refusing_solver local_settings (local_redis None)
                     fresh_db 10 20 7).1.2) 7
        = Some "FAILED")) ∧
    ∀ j, j ≠ 7 →
      session_get
        (images (@rescan_image refusing_solver local_settings (local_redis None)
                   fresh_db 10 20 7).1.2) j
      = session_get (images fresh_db) j.
Proof.
  apply (@rescan_image_settles refusing_solver local_settings (local_redis None)
           fresh_db 10 20 7 fresh_image);
    by vm_compute.
Defined.

(** ** Properties of the monitor *)

Lemma same_solution_refl a : same_solution a a.
Proof. by repeat split. Qed.

Lemma same_solution_trans a b c :
  same_solution a b → same_solution b c → same_solution a c.
Proof.
  unfold same_solution. intros Hab Hbc.
  destruct_and!. split_and!; congruence.
Qed.

Lemma update_image_same_solution imgs j f :
  (∀ img, same_solution img (f img)) →
  Forall2 same_solution imgs (update_image imgs j f).
Proof.
  intros Hf. unfold update_image. induction imgs as [|a imgs IH]; [constructor|].
  rewrite fmap_cons. constructor; [|done].
  case_bool_decide; [apply Hf|apply same_solution_refl].
Qed.

Lemma solutions_kept_refl db : solutions_kept db db.
Proof.
  split_and!; try done.
  induction (images db) as [|a l IH]; constructor; [apply same_solution_refl|done].
Qed.

Lemma solutions_kept_trans db1 db2 db3 :
  solutions_kept db1 db2 → solutions_kept db2 db3 → solutions_kept db1 db3.
Proof.
  intros (Ha & ? & ? & ? & ?) (Hb & ? & ? & ? & ?).
  split_and!; try congruence.
  clear -Ha Hb. revert Hb. generalize (images db3).
  induction Ha as [|a b l l' Hab _ IH]; intros l3 Hb; inversion Hb; subst;
    constructor; [by eapply same_solution_trans|by apply IH].
Qed.

Lemma solutions_kept_update db j f :
  (∀ img, same_solution img (f img)) →
  solutions_kept db (with_images db (update_image (images db) j f)).
Proof.
  intros Hf. split_and!; try done. by apply update_image_same_solution.
Qed.

(** A row present before is present after, with the same solution. *)
Lemma solutions_kept_get db db' j img :
  solutions_kept db db' →
  session_get (images db) j = Some img →
  ∃ img', session_get (images db') j = Some img' ∧ same_solution img img'.
Proof.
  intros [Hall _]. revert img.
  induction Hall as [|a b l l' Hab _ IH]; intros img; [done|].
  cbn [session_get]. destruct Hab as (Hid & Hrest). rewrite Hid.
  case_bool_decide.
  - intros [= <-]. exists b. split; [done|]. by split.
  - apply IH.
Qed.

Lemma solutions_kept_absent db db' j :
  solutions_kept db db' →
  session_get (images db) j = None → session_get (images db') j = None.
Proof.
  intros [Hall _].
  induction Hall as [|a b l l' Hab _ IH]; [done|].
  cbn [session_get]. destruct Hab as (Hid & Hrest). rewrite Hid.
  by case_bool_decide.
Qed.

Lemma assign_astrometry_same_solution status solver submission now img :
  same_solution img (assign_astrometry status solver submission now img).
Proof.
  unfold assign_astrometry. case_bool_decide; [apply same_solution_refl|].
  by repeat split.
Qed.

Lemma polled_refl j st : polled j st st.
Proof. split_and!; try done. apply solutions_kept_refl. Qed.

Lemma polled_trans j st1 st2 st3 :
  polled j st1 st2 → polled j st2 st3 → polled j st1 st3.
Proof.
  intros (Ha & Hb & Hc & Hd & He) (Ha' & Hb' & Hc' & Hd' & He').
  split_and!.
  - by eapply solutions_kept_trans.
  - intros k Hk. by rewrite Hb', Hb.
  - intros k Hk. by rewrite Hc', Hc.
  - congruence.
  - congruence.
Qed.

Lemma mark_failed_spec st j now st1 :
  mark_failed st j now = Some st1 →
  polled j st st1 ∧
  solve_columns st1 = solve_columns st ∧
  Image.astrometry_status <$> session_get (images (store_db st1)) j = Some "FAILED".
Proof.
  unfold mark_failed.
  destruct (session_get (images (store_db st)) j) as [img|] eqn:Hget; [|done].
  intros [= <-]. simpl. split_and!; try done.
  - split_and!; try done.
    + apply solutions_kept_update. intros x. apply assign_astrometry_same_solution.
    + intros k Hk. simpl.
      apply session_get_update_ne; [|done]. intros x. apply assign_astrometry_id.
  - rewrite session_get_update, Hget by (intros x; apply assign_astrometry_id).
    simpl. unfold assign_status. by rewrite assign_astrometry_status.
Qed.

Lemma mark_failed_present st j now :
  is_Some (session_get (images (store_db st)) j) → is_Some (mark_failed st j now).
Proof. unfold mark_failed. intros [img ->]. by eexists. Qed.

Lemma record_job_spec st j job now st1 :
  record_job st j job now = Some st1 →
  polled j st st1 ∧
  astrometry_job_id (columns_of st1 j) = Some (pretty job) ∧
  is_Some (session_get (images (store_db st1)) j).
Proof.
  unfold record_job.
  destruct (session_get (images (store_db st)) j) as [img|] eqn:Hget; [|done].
  case_bool_decide as Hsame.
  - intros [= <-]. split_and!; [apply polled_refl|done|by eexists].
  - intros [= <-]. split_and!.
    + split_and!; simpl.
      * apply solutions_kept_update. intros x. by repeat split.
      * intros k Hk. by apply session_get_update_ne.
      * intros k Hk. by rewrite lookup_insert_ne.
      * unfold columns_of. simpl. by rewrite lookup_insert_eq.
      * unfold columns_of. simpl. by rewrite lookup_insert_eq.
    + unfold columns_of. simpl. by rewrite lookup_insert_eq.
    + simpl. rewrite session_get_update, Hget by done. by eexists.
Qed.

Lemma mark_failed_absent st j now :
  mark_failed st j now = None → session_get (images (store_db st)) j = None.
Proof.
  unfold mark_failed. by destruct (session_get (images (store_db st)) j).
Qed.

Lemma record_job_present st j job now :
  is_Some (session_get (images (store_db st)) j) →
  is_Some (record_job st j job now).
Proof.
  unfold record_job. intros [img ->]. case_bool_decide; by eexists.
Qed.

Lemma record_job_in_flight st j job now st1 img :
  record_job st j job now = Some st1 →
  session_get (images (store_db st)) j = Some img →
  in_flight img = true →
  in_flight <$> session_get (images (store_db st1)) j = Some true.
Proof.
  unfold record_job. intros Hrec Hget Hflight. rewrite Hget in Hrec.
  case_bool_decide.
  - injection Hrec as <-. by rewrite Hget; simpl; rewrite Hflight.
  - injection Hrec as <-. simpl. rewrite session_get_update, Hget by done.
    simpl. f_equal. apply in_flight_spec in Hflight. apply in_flight_spec. simpl.
    case_bool_decide; [by right|done].
Qed.

Lemma first_job_none (sub_status : result (list (option Z))) :
  first_job sub_status = None →
  match sub_status with Ok (Some _ :: _) => False | _ => True end.
Proof. by destruct sub_status as [[|[job|] rest]|e]. Qed.

Section PollFacts.
Context `{SolverPolls}.
Variables (sid : string) (i : Z) (url : string) (clock : nat → Z).

(** What the loop has done when it ends, however it ends. *)
Lemma poll_spec remaining : ∀ k job_id st e st',
  poll sid i url clock remaining k job_id st = (e, st') →
  polled i st st' ∧
  match e with
  | PollDone jid =>
      (jid = job_id ∧ st' = st) ∨
      (∃ job, jid = Some job ∧
              astrometry_job_id (columns_of st' i) = Some (pretty job) ∧
              is_Some (session_get (images (store_db st')) i))
  | PollJobFailed job =>
      astrometry_job_id (columns_of st' i) = Some (pretty job) ∧
      Image.astrometry_status <$> session_get (images (store_db st')) i
        = Some "FAILED"
  | PollRaised _ => True
  end.
Proof.
  induction remaining as [|remaining IH]; intros k job_id st e st'.
  { intros [= <- <-]. split; [apply polled_refl|by left]. }
  cbn [poll].
  destruct (get_submission_status k sid url) as [[|[job|] rest]|e0]; try apply IH.
  destruct (record_job st i job (clock k)) as [st1|] eqn:Hrec.
  2:{ intros [= <- <-]. split; [apply polled_refl|done]. }
  apply record_job_spec in Hrec as (Hpolled & Hjob & Hpresent).
  destruct (get_job_status k job url) as [status|e1].
  2:{ by intros [= <- <-]. }
  case_bool_decide as Hsuccess.
  { intros [= <- <-]. split; [done|]. right. by exists job. }
  case_bool_decide as Hfailure.
  { destruct (mark_failed st1 i (clock k)) as [st2|] eqn:Hfail.
    - apply mark_failed_spec in Hfail as (Hpolled2 & Hcols & Hstatus).
      intros [= <- <-]. split; [by eapply polled_trans|].
      split; [|done]. unfold columns_of in *. by rewrite Hcols.
    - by intros [= <- <-]. }
  intros Hrest. apply IH in Hrest as [Hpolled' Hend].
  split; [by eapply polled_trans|].
  destruct e as [jid|job'|e']; [|done..].
  destruct Hend as [[-> ->]|Hend]; [|by right].
  right. by exists job.
Qed.


(** One attempt that finds a job. *)
Lemma poll_job remaining k job_id st job st1 :
  first_job (get_submission_status k sid url) = Some job →
  record_job st i job (clock k) = Some st1 →
  poll sid i url clock (S remaining) k job_id st
  = match get_job_status k job url with
    | Raised e => (PollRaised (Propagated e), st1)
    | Ok status_str =>
        if bool_decide (status_str = "success") then (PollDone (Some job), st1)
        else if bool_decide (status_str = "failure") then
          match mark_failed st1 i (clock k) with
          | None => (PollRaised NoResultFound, st1)
          | Some st2 => (PollJobFailed job, st2)
          end
        else poll sid i url clock remaining (S k) (Some job) st1
    end.
Proof.
  intros Hfirst Hrec. cbn [poll].
  destruct (get_submission_status k sid url) as [[|[job'|] rest]|e0]; try done.
  injection Hfirst as ->. by rewrite Hrec.
Qed.

(** Attempts that leave the loop running: each poll either shows no job
    or shows one that is neither finished nor failed. *)
Lemma poll_unfinished m : ∀ remaining k job_id st,
  is_Some (session_get (images (store_db st)) i) →
  (∀ j, job_id = Some j → astrometry_job_id (columns_of st i) = Some (pretty j)) →
  (∀ a job, (k ≤ a < k + m)%nat →
     first_job (get_submission_status a sid url) = Some job →
     ∃ status, get_job_status a job url = Ok status ∧
               status ≠ "success" ∧ status ≠ "failure") →
  ∃ st1,
    poll sid i url clock (m + remaining) k job_id st
    = poll sid i url clock remaining (k + m)
        (last_job_seen (λ a, get_submission_status a sid url) m k job_id) st1 ∧
    polled i st st1 ∧
    is_Some (session_get (images (store_db st1)) i) ∧
    (∀ j, last_job_seen (λ a, get_submission_status a sid url) m k job_id = Some j →
          astrometry_job_id (columns_of st1 i) = Some (pretty j)) ∧
    (in_flight <$> session_get (images (store_db st)) i = Some true →
     in_flight <$> session_get (images (store_db st1)) i = Some true).
Proof.
  induction m as [|m IH]; intros remaining k job_id st Hpresent Hrecorded Hrunning.
  { exists st. rewrite Nat.add_0_r. split_and!; try done. apply polled_refl. }
  cbn [Nat.add last_job_seen].
  replace (k + S m)%nat with (S k + m)%nat by lia.
  destruct (first_job (get_submission_status k sid url)) as [job|] eqn:Hfirst.
  - destruct (record_job_present st i job (clock k) Hpresent) as [st0 Hrec].
    destruct (Hrunning k job ltac:(lia) Hfirst) as (status & Hstatus & Hs & Hf).
    rewrite (poll_job (m + remaining) _ job_id _ _ _ Hfirst Hrec), Hstatus.
    rewrite !bool_decide_eq_false_2 by done.
    pose proof (record_job_spec _ _ _ _ _ Hrec) as (Hpolled & Hjob & Hpresent0).
    destruct (IH remaining (S k) (Some job) st0) as (st1 & Hpoll & Hp1 & Hpr1 & Hj1 & Hf1).
    + done.
    + by intros j [= <-].
    + intros a job' Ha. apply Hrunning. lia.
    + exists st1. split_and!; try done.
      * by eapply polled_trans.
      * intros Hflight. apply Hf1.
        destruct (session_get (images (store_db st)) i) as [img|] eqn:Hget; [|done].
        injection Hflight as Hflight. by eapply record_job_in_flight.
  - assert (poll sid i url clock (S (m + remaining)) k job_id st
            = poll sid i url clock (m + remaining) (S k) job_id st) as ->.
    { cbn [poll]. apply first_job_none in Hfirst.
      by destruct (get_submission_status k sid url) as [[|[job|] rest]|e0]. }
    apply IH; [done..|]. intros a job Ha. apply Hrunning. lia.
Qed.

End PollFacts.

Lemma fail_results_spec j clock st e o st' :
  fail_results j clock st e = (o, st') →
  (∃ e', o = MonitorRaised e') ∧
  (session_get (images (store_db st')) j = None ∨
   Image.astrometry_status <$> session_get (images (store_db st')) j
     = Some "FAILED").
Proof.
  unfold fail_results.
  destruct (mark_failed st j _) as [st1|] eqn:Hfail; intros [= <- <-].
  - split; [by eexists|]. right. by apply mark_failed_spec in Hfail as (_ & _ & ?).
  - split; [by eexists|]. left. by apply mark_failed_absent in Hfail.
Qed.

Section MonitorFacts.
Context `{Libm, Astropy, PostGIS, SolverPolls}.
Variables (sid : string) (i : Z) (url : string) (clock : nat → Z).

Lemma match_image_keeps_images db j :
  images (match_image db j).2 = images db ∧
  messier_catalog (match_image db j).2 = messier_catalog db ∧
  ngc_catalog (match_image db j).2 = ngc_catalog db ∧
  named_star_catalog (match_image db j).2 = named_star_catalog db.
Proof. unfold match_image. by repeat case_match. Qed.

(** The two ways the result phase ends. *)
Lemma fetch_results_cases job st o st' :
  fetch_results sid i url clock job st = (o, st') →
  ((∃ e, o = MonitorRaised e) ∧
   (session_get (images (store_db st')) i = None ∨
    Image.astrometry_status <$> session_get (images (store_db st')) i
      = Some "FAILED")) ∨
  (o = MonitorReturned "solved" (Some job) ∧
   ∃ cal img n,
     get_calibration job url = Ok cal ∧
     session_get (images (store_db st)) i = Some img ∧
     match_image
       (with_images (store_db st)
          (update_image (images (store_db st)) i
             (λ x, apply_calibration x (columns_of st i) cal (solved_url url sid)
                     (clock max_attempts)))) i
       = (Ok n, store_db st') ∧
     solve_columns st'
       = <[i := {| astrometry_job_id := astrometry_job_id (columns_of st i);
                   astrometry_url := Some (solved_url url sid);
                   plate_solve_source := Some "SOLVER" |}]> (solve_columns st)).
Proof.
  unfold fetch_results.
  destruct (get_calibration job url) as [cal|e] eqn:Hcal.
  2:{ intros Hfail. left. by eapply fail_results_spec. }
  destruct (session_get (images (store_db st)) i) as [img|] eqn:Hget.
  2:{ intros Hfail. left. by eapply fail_results_spec. }
  destruct (match_image _ i) as [[n|e] db2] eqn:Hmatch.
  - intros [= <- <-]. right. split; [done|]. by exists cal, img, n.
  - intros Hfail. left. by eapply fail_results_spec.
Qed.

(** The ways the monitor ends. *)
Lemma monitor_from_cases st o st' :
  monitor_from sid i url clock st = (o, st') →
  (∃ e, o = MonitorRaised e) ∨
  (o = MonitorReturned "timeout" None ∧ polled i st st' ∧
   Image.astrometry_status <$> session_get (images (store_db st')) i
     = Some "FAILED") ∨
  (∃ job, o = MonitorReturned "failed" (Some job) ∧ polled i st st' ∧
          Image.astrometry_status <$> session_get (images (store_db st')) i
            = Some "FAILED" ∧
          astrometry_job_id (columns_of st' i) = Some (pretty job)) ∨
  (∃ job st1, o = MonitorReturned "solved" (Some job) ∧ job ≠ 0 ∧
              polled i st st1 ∧
              astrometry_job_id (columns_of st1 i) = Some (pretty job) ∧
              fetch_results sid i url clock job st1 = (o, st')).
Proof.
  unfold monitor_from.
  destruct (poll sid i url clock max_attempts 0 None st) as [e st1] eqn:Hpoll.
  apply poll_spec in Hpoll as [Hpolled Hend].
  assert (∀ o st',
            match mark_failed st1 i (clock max_attempts) with
            | Some st'' => (MonitorReturned "timeout" None, st'')
            | None => (MonitorRaised NoResultFound, st1)
            end = (o, st') →
            (∃ e, o = MonitorRaised e) ∨
            (o = MonitorReturned "timeout" None ∧ polled i st st' ∧
             Image.astrometry_status <$> session_get (images (store_db st')) i
               = Some "FAILED")) as Htimeout.
  { intros o0 st0.
    destruct (mark_failed st1 i _) as [st2|] eqn:Hfail; intros [= <- <-].
    - apply mark_failed_spec in Hfail as (Hpolled2 & _ & Hstatus).
      right. split_and!; [done| |done]. by eapply polled_trans.
    - left. by eexists. }
  destruct e as [[job|]|job|e].
  - case_bool_decide as Hzero.
    + intros Hrun. apply Htimeout in Hrun as [?|?]; [by left|by right; left].
    + intros Hrun. destruct Hend as [[? _]|(job' & [= <-] & Hjob & _)]; [done|].
      destruct (fetch_results_cases _ _ _ _ Hrun) as [[[e ->] _]|[-> _]].
      * left. by eexists.
      * right; right; right. by exists job, st1.
  - intros Hrun. apply Htimeout in Hrun as [?|?]; [by left|by right; left].
  - intros [= <- <-]. destruct Hend as [Hjob Hstatus].
    right; right; left. by exists job.
  - intros [= <- <-]. left. by eexists.
Qed.

End MonitorFacts.

Section MonitorRuns.
Context `{Libm, Astropy, PostGIS, SolverPolls}.

(** X20: a monitor that reports "timeout" or "failed" leaves the image
    FAILED and nothing else changed: every image keeps its stored solution
    (centre, radius, scale, rotation, header, solved flag), the catalogs
    and the match rows are as before, and the other images read back as
    they were. *)
Theorem monitor_failure_keeps_solution settings clock sid i st status job st' :
  _monitor_logic settings clock sid i st = (MonitorReturned status job, st') →
  status ≠ "solved" →
  (status = "timeout" ∧ job = None ∨ status = "failed" ∧ is_Some job) ∧
  Image.astrometry_status <$> session_get (images (store_db st')) i = Some "FAILED" ∧
  solutions_kept (store_db st) (store_db st') ∧
  ∀ k, k ≠ i →
    session_get (images (store_db st')) k = session_get (images (store_db st)) k.
Proof.
  unfold _monitor_logic. intros Hrun Hstatus.
  apply monitor_from_cases in Hrun
    as [[e [=]]|[([= -> ->] & Hpolled & Hfailed)
                |[(j & [= -> ->] & Hpolled & Hfailed & _)|(j & st1 & [= -> _] & _)]]];
    [| |done].
  - destruct Hpolled as (Hkept & Hothers & _). split_and!; try done. by left.
  - destruct Hpolled as (Hkept & Hothers & _). split_and!; try done. by right.
Qed.

(** X21: a monitor that reports "solved" has stored the calibration of the
    reported job: the image is SOLVED and plate solved with the centre,
    radius, scale and rotation of the calibration, its header carries the
    parity, the job id, the status URL and the source SOLVER are recorded,
    and the match rows are those of a matcher run on that image, started
    from the rows stored before.  The other images read back as they
    were. *)
Theorem monitor_solved_stores_calibration settings clock sid i st job st' :
  _monitor_logic settings clock sid i st = (MonitorReturned "solved" job, st') →
  ∃ j cal img' n db1,
    job = Some j ∧ j ≠ 0 ∧
    get_calibration j (monitor_base_url settings st i) = Ok cal ∧
    session_get (images (store_db st')) i = Some img' ∧
    Image.astrometry_status img' = "SOLVED" ∧
    Image.is_plate_solved img' = true ∧
    Image.ra_center_degrees img' = cal_ra cal ∧
    Image.dec_center_degrees img' = cal_dec cal ∧
    Image.field_radius_degrees img' = cal_radius cal ∧
    Image.pixel_scale_arcsec img' = cal_pixscale cal ∧
    Image.rotation_degrees img' = cal_orientation cal ∧
    (Image.raw_header img' ≫= λ hdr, hdr !! "astrometry_parity")
      = Some (from_option JNumber JNull (cal_parity cal)) ∧
    columns_of st' i
      = {| astrometry_job_id := Some (pretty j);
           astrometry_url :=
             Some (solved_url (monitor_base_url settings st i) sid);
           plate_solve_source := Some "SOLVER" |} ∧
    match_image db1 i = (Ok n, store_db st') ∧
    images db1 = images (store_db st') ∧
    image_catalog_matches db1 = image_catalog_matches (store_db st) ∧
    ∀ k, k ≠ i →
      session_get (images (store_db st')) k = session_get (images (store_db st)) k.
Proof.
  unfold _monitor_logic. set (url := monitor_base_url settings st i).
  intros Hrun.
  apply monitor_from_cases in Hrun
    as [[e [=]]|[([=] & _)|[(j & [=] & _)
                |(j & st1 & [= ->] & Hj & Hpolled & Hjob & Hfetch)]]].
  apply fetch_results_cases in Hfetch
    as [[[e [=]] _]|(_ & cal & img & n & Hcal & Hget & Hmatch & Hcols)].
  set (db1 := with_images (store_db st1) _) in Hmatch.
  destruct (match_image_keeps_images db1 i) as (Himages & _).
  rewrite Hmatch in Himages. simpl in Himages.
  destruct Hpolled as (Hkept & Hothers & _).
  exists j, cal,
    (apply_calibration img (columns_of st1 i) cal (solved_url url sid)
       (clock max_attempts)), n, db1.
  split_and!; try done.
  - rewrite Himages. simpl.
    rewrite session_get_update, Hget by done. done.
  - simpl. unfold solved_header. by rewrite lookup_insert_eq.
  - unfold columns_of at 1. rewrite Hcols, lookup_insert_eq. simpl. by rewrite Hjob.
  - simpl. by destruct Hkept as (_ & _ & _ & _ & ?).
  - intros k Hk. rewrite Himages. simpl.
    rewrite session_get_update_ne by done. by apply Hothers.
Qed.


(** X23: a job that is still neither "success" nor "failure" when the 45
    attempts run out is not reported as a timeout.  Whenever every poll
    that shows a job finds it unfinished, whichever poll first shows it and
    whatever polls fail in between, the monitor goes on to fetch the
    calibration of the last job shown as for a finished job, and what it
    reports is "solved" or an exception. *)
Theorem monitor_unfinished_job_is_fetched settings (clock : nat → Z) sid i st img job :
  session_get (images (store_db st)) i = Some img →
  (∀ a j, (a < max_attempts)%nat →
     first_job (get_submission_status a sid (monitor_base_url settings st i))
       = Some j →
     ∃ status, get_job_status a j (monitor_base_url settings st i) = Ok status ∧
               status ≠ "success" ∧ status ≠ "failure") →
  last_job_seen
    (λ a, get_submission_status a sid (monitor_base_url settings st i))
    max_attempts 0 None = Some job →
  job ≠ 0 →
  ∃ st1,
    polled i st st1 ∧
    astrometry_job_id (columns_of st1 i) = Some (pretty job) ∧
    _monitor_logic settings clock sid i st
    = fetch_results sid i (monitor_base_url settings st i) clock job st1 ∧
    ∀ status j,
      (_monitor_logic settings clock sid i st).1 = MonitorReturned status j →
      status = "solved".
Proof.
  intros Hget Hrunning Hlast Hjob.
  destruct (poll_unfinished sid i (monitor_base_url settings st i) clock
              max_attempts 0 0 None st)
    as (st1 & Hpoll & Hpolled & _ & Hrecorded & _); [by eexists|done|..].
  { intros a j Ha. apply Hrunning. lia. }
  rewrite Nat.add_0_r, Hlast in Hpoll. cbn [poll] in Hpoll.
  exists st1.
  assert (_monitor_logic settings clock sid i st
          = fetch_results sid i (monitor_base_url settings st i) clock job st1)
    as Hrun.
  { unfold _monitor_logic, monitor_from.
    by rewrite Hpoll, bool_decide_eq_false_2. }
  split_and!; [done|by apply Hrecorded|done|].
  intros status j. rewrite Hrun.
  destruct (fetch_results _ _ _ _ _ _) as [o st'] eqn:Hfetch. simpl.
  apply fetch_results_cases in Hfetch as [[[e ->] _]|[-> _]]; [done|].
  by intros [= <- _].
Qed.

(** X24: an exception of the job status call leaves the monitor at once,
    at whichever poll it is raised.  The image is not marked FAILED: an
    image that was in flight is still in flight, with the job id recorded,
    when the exception propagates. *)
Theorem monitor_job_status_error_escapes settings clock sid i st img a job e :
  session_get (images (store_db st)) i = Some img →
  in_flight img = true →
  (a < max_attempts)%nat →
  (∀ b j, (b < a)%nat →
     first_job (get_submission_status b sid (monitor_base_url settings st i))
       = Some j →
     ∃ status, get_job_status b j (monitor_base_url settings st i) = Ok status ∧
               status ≠ "success" ∧ status ≠ "failure") →
  first_job (get_submission_status a sid (monitor_base_url settings st i))
    = Some job →
  get_job_status a job (monitor_base_url settings st i) = Raised e →
  ∃ st1,
    _monitor_logic settings clock sid i st = (MonitorRaised (Propagated e), st1) ∧
    polled i st st1 ∧
    in_flight <$> session_get (images (store_db st1)) i = Some true ∧
    astrometry_job_id (columns_of st1 i) = Some (pretty job).
Proof.
  intros Hget Hflight Ha Hrunning Hfirst Hraise.
  destruct (poll_unfinished sid i (monitor_base_url settings st i) clock
              a (S (44 - a)) 0 None st)
    as (st0 & Hpoll & Hpolled & Hpresent & _ & Hflight0); [by eexists|done|..].
  { intros b j Hb. apply Hrunning. lia. }
  destruct (record_job_present st0 i job (clock a) Hpresent) as [st1 Hrec].
  pose proof (record_job_spec _ _ _ _ _ Hrec) as (Hpolled1 & Hrecorded & _).
  exists st1. split_and!; [| |..|done].
  - unfold _monitor_logic, monitor_from.
    replace max_attempts with (a + S (44 - a))%nat by (unfold max_attempts in *; lia).
    rewrite Hpoll, Nat.add_0_l.
    by rewrite (poll_job _ _ _ _ _ a _ st0 job st1 Hfirst Hrec), Hraise.
  - by eapply polled_trans.
  - destruct (session_get (images (store_db st0)) i) as [img0|] eqn:Hget0.
    + eapply record_job_in_flight; [done..|].
      assert (in_flight <$> Some img0 = Some true) as [= ?]; [|done].
      apply Hflight0. by rewrite Hget; simpl; rewrite Hflight.
    + by destruct Hpresent.
Qed.

End MonitorRuns.

Section TaskRuns.
Context `{Libm, Astropy, PostGIS, SolverIO, SolverPolls}.

(** Where a monitor that returns leaves the image. *)
Lemma monitor_returned_status settings clock sid i st status job st' img :
  _monitor_logic settings clock sid i st = (MonitorReturned status job, st') →
  session_get (images (store_db st')) i = Some img →
  Image.astrometry_status img = "FAILED" ∨
  (Image.astrometry_status img = "SOLVED" ∧
   ∃ j, MonitorReturned status job = MonitorReturned "solved" (Some j)).
Proof.
  unfold _monitor_logic. intros Hrun Hget.
  apply monitor_from_cases in Hrun
    as [[e [=]]|[(_ & _ & Hfailed)|[(j & _ & _ & Hfailed & _)
                |(j & st1 & Hsolved & _ & _ & _ & Hfetch)]]].
  - left. rewrite Hget in Hfailed. by injection Hfailed.
  - left. rewrite Hget in Hfailed. by injection Hfailed.
  - right. split; [|by exists j].
    apply fetch_results_cases in Hfetch
      as [[[e [=]] _]|(_ & cal & img0 & n & _ & Hget0 & Hmatch & _)].
    match type of Hmatch with match_image ?db _ = _ =>
      destruct (match_image_keeps_images db i) as (Himages & _) end.
    rewrite Hmatch in Himages. simpl in Himages.
    rewrite Himages in Hget. simpl in Hget.
    rewrite session_get_update, Hget0 in Hget by done.
    by injection Hget as <-.
Qed.

(** X25: run from [astrometry_task], nothing after a successful upload
    leaves the image in flight.  However the monitor ends, by a result or
    by an exception, the image, if it still exists, is FAILED, or it is
    SOLVED and the task reports "solved". *)
Theorem astrometry_task_settles settings redis clock now now' i st outcome st' img :
  astrometry_task settings redis clock now now' i st = (inr outcome, st') →
  session_get (images (store_db st')) i = Some img →
  Image.astrometry_status img = "FAILED" ∨
  (Image.astrometry_status img = "SOLVED" ∧
   ∃ job, outcome = MonitorReturned "solved" (Some job)).
Proof.
  unfold astrometry_task.
  destruct (_rescan_logic settings redis (store_db st) now now' i)
    as [[status message|countdown|e|submission_id] db1];
    [by intros [=]..|].
  destruct (_monitor_logic _ _ _ _ _) as [[status job|e] st2] eqn:Hrun.
  - intros [= <- <-] Hget.
    exact (monitor_returned_status _ _ _ _ _ _ _ _ _ Hrun Hget).
  - destruct (mark_failed st2 i _) as [st3|] eqn:Hfail.
    + intros [= <- <-] Hget. left.
      apply mark_failed_spec in Hfail as (_ & _ & Hfailed).
      rewrite Hget in Hfailed. by injection Hfailed.
    + intros [= <- <-] Hget. apply mark_failed_absent in Hfail. congruence.
Qed.

End TaskRuns.

Lemma monitor_failure_keeps_solution_witness :
  ∃ st',
    scenario_monitor failing_polls monitor_store
      = (MonitorReturned "failed" (Some 77), st') ∧
    ("failed" = "timeout" ∧ Some 77 = None ∨ "failed" = "failed" ∧ is_Some (Some 77)) ∧
    Image.astrometry_status <$> session_get (images (store_db st')) 1
      = Some "FAILED" ∧
    solutions_kept (store_db monitor_store) (store_db st') ∧
    ∀ k, k ≠ 1 →
      session_get (images (store_db st')) k
      = session_get (images (store_db monitor_store)) k.
Proof.
  unfold scenario_monitor.
  eexists. split; [vm_compute; reflexivity|].
  eapply (@monitor_failure_keeps_solution libm_unrotated linear_astropy
            meridian_postgis failing_polls local_settings scenario_clock "4242" 1
            monitor_store "failed" (Some 77)).
  - vm_compute. reflexivity.
  - done.
Defined.

Lemma monitor_solved_stores_calibration_witness :
  ∃ st',
    scenario_monitor solved_polls monitor_store
      = (MonitorReturned "solved" (Some 77), st') ∧
    ∃ j cal img' n db1,
      Some 77 = Some j ∧ j ≠ 0 ∧
      @get_calibration solved_polls j
        (monitor_base_url local_settings monitor_store 1) = Ok cal ∧
      session_get (images (store_db st')) 1 = Some img' ∧
      Image.astrometry_status img' = "SOLVED" ∧
      Image.is_plate_solved img' = true ∧
      Image.ra_center_degrees img' = cal_ra cal ∧
      Image.dec_center_degrees img' = cal_dec cal ∧
      Image.field_radius_degrees img' = cal_radius cal ∧
      Image.pixel_scale_arcsec img' = cal_pixscale cal ∧
      Image.rotation_degrees img' = cal_orientation cal ∧
      (Image.raw_header img' ≫= λ hdr, hdr !! "astrometry_parity")
        = Some (from_option JNumber JNull (cal_parity cal)) ∧
      columns_of st' 1
        = {| astrometry_job_id := Some (pretty j);
             astrometry_url :=
               Some (solved_url (monitor_base_url local_settings monitor_store 1)
                       "4242");
             plate_solve_source := Some "SOLVER" |} ∧
      @match_image libm_unrotated linear_astropy meridian_postgis db1 1
        = (Ok n, store_db st') ∧
      images db1 = images (store_db st') ∧
      image_catalog_matches db1 = image_catalog_matches (store_db monitor_store) ∧
      ∀ k, k ≠ 1 →
        session_get (images (store_db st')) k
        = session_get (images (store_db monitor_store)) k.
Proof.
  unfold scenario_monitor.
  eexists. split; [vm_compute; reflexivity|].
  eapply (@monitor_solved_stores_calibration libm_unrotated linear_astropy
            meridian_postgis solved_polls local_settings scenario_clock "4242" 1
            monitor_store (Some 77)).
  vm_compute. reflexivity.
Defined.


Lemma monitor_unfinished_job_is_fetched_witness :
  ∃ st1,
    polled 1 monitor_store st1 ∧
    astrometry_job_id (columns_of st1 1) = Some (pretty 77) ∧
    scenario_monitor late_polls monitor_store
    = @fetch_results libm_unrotated linear_astropy meridian_postgis late_polls
        "4242" 1 (monitor_base_url local_settings monitor_store 1) scenario_clock
        77 st1 ∧
    ∀ status j,
      (scenario_monitor late_polls monitor_store).1 = MonitorReturned status j →
      status = "solved".
Proof.
  unfold scenario_monitor.
  apply (@monitor_unfinished_job_is_fetched libm_unrotated linear_astropy
           meridian_postgis late_polls local_settings scenario_clock "4242" 1
           monitor_store processing_image 77).
  - reflexivity.
  - intros a j _ _. exists "solving". by split_and!.
  - vm_compute. reflexivity.
  - done.
Defined.

Lemma monitor_job_status_error_escapes_witness :
  ∃ st1,
    scenario_monitor flaky_polls monitor_store
      = (MonitorRaised (Propagated HTTPError), st1) ∧
    polled 1 monitor_store st1 ∧
    in_flight <$> session_get (images (store_db st1)) 1 = Some true ∧
    astrometry_job_id (columns_of st1 1) = Some (pretty 77).
Proof.
  unfold scenario_monitor.
  apply (@monitor_job_status_error_escapes libm_unrotated linear_astropy
           meridian_postgis flaky_polls local_settings scenario_clock "4242" 1
           monitor_store processing_image 2 77 HTTPError).
  - reflexivity.
  - vm_compute. reflexivity.
  - unfold max_attempts. lia.
  - intros b j Hb _. exists "solving".
    destruct b as [|[|b]]; [by split_and!..|lia].
  - reflexivity.
  - reflexivity.
Defined.

Lemma astrometry_task_settles_witness :
  ∃ st' img,
    scenario_task crashing_polls waiting_store
      = (inr (MonitorRaised (Propagated HTTPError)), st') ∧
    session_get (images (store_db st')) 1 = Some img ∧
    (Image.astrometry_status img = "FAILED" ∨
     (Image.astrometry_status img = "SOLVED" ∧
      ∃ job, MonitorRaised (Propagated HTTPError)
             = MonitorReturned "solved" (Some job))).
Proof.
  unfold scenario_task.
  eexists _, _. split; [vm_compute; reflexivity|].
  split; [vm_compute; reflexivity|].
  eapply (@astrometry_task_settles libm_unrotated linear_astropy meridian_postgis
            accepting_solver crashing_polls local_settings (local_redis None)
            scenario_clock 10 20 1 waiting_store
            (MonitorRaised (Propagated HTTPError))).
  - vm_compute. reflexivity.
  - vm_compute. reflexivity.
Defined.
